(** * engo audio conversion: resampling and stereo/16-bit normalisation

    A shallow embedding of package [convert] (the windowed-sinc resampler with
    its block cache and the mono/8-bit normaliser) and the properties of it
    that the design document states.

    Conventions of the embedding:
    - Go's [int], [int64] are [Z] with the 64-bit wrap-around written out
      ([int64]); [int16] and [uint8] likewise.
    - Go's [float64] is Rocq's primitive binary64 [float]: the same IEEE 754
      format and the same round-to-nearest-even operations.  Products and sums
      are rounded separately (no fused multiply-add), as the amd64 compiler
      emits them.
    - A conversion of a float that the integer type cannot hold is
      implementation-dependent in Go; it is the parameter [cvt] of the model.
    - [math.Cos] belongs to Go's library; it is the parameter [math_Cos].
    - A run-time panic (index out of range, the explicit [panic]) is an
      outcome of its own, and so is a read loop that never finishes. *)

From Stdlib Require Import ZArith List Bool Lia Floats Reals Lra.
From Stdlib Require Uint63.
From Stdlib.Strings Require Import Byte.
From stdpp Require Import gmap list.

Local Open Scope Z_scope.

(** ** Machine integers *)

Module Int.

(** The value of the low [w] bits of [z] read as a signed (two's complement)
    integer. *)
Definition wrap (w : Z) (z : Z) : Z :=
  let m := 2 ^ w in
  let r := z mod m in
  if r <? 2 ^ (w - 1) then r else r - m.

Definition int64 (z : Z) : Z := wrap 64 z.
Definition int16 (z : Z) : Z := wrap 16 z.
Definition uint8 (z : Z) : Z := z mod 256.

Definition min_int64 : Z := - 2 ^ 63.
Definition max_int64 : Z := 2 ^ 63 - 1.

Definition in_int (w : Z) (z : Z) : bool :=
  (- 2 ^ (w - 1) <=? z) && (z <? 2 ^ (w - 1)).

(** Go's [/] and [%] on integers truncate towards zero. *)
Definition div (a b : Z) : Z := Z.quot a b.
Definition rem (a b : Z) : Z := Z.rem a b.

End Int.

(** ** float64 *)

Module F64.

(** [float64(z)] for an integer [z]: the nearest binary64 value, ties to
    even. *)
Definition of_int (z : Z) : float :=
  SF2Prim (binary_normalize prec emax z 0 false).

(** The integer part of a finite float (rounding towards zero); [None] for
    NaN and the infinities. *)
Definition trunc (f : float) : option Z :=
  match Prim2SF f with
  | S754_zero _ => Some 0
  | S754_finite s m e =>
      let v := Z.shiftl (Zpos m) e in Some (if s then - v else v)
  | S754_infinity _ | S754_nan => None
  end.

(** [intW(f)]: the truncated value when the [w]-bit type holds it, otherwise
    whatever the implementation [cvt] yields, cut to [w] bits. *)
Definition to_int (cvt : Z -> float -> Z) (w : Z) (f : float) : Z :=
  match trunc f with
  | Some z => if Int.in_int w z then z else Int.wrap w (cvt w f)
  | None => Int.wrap w (cvt w f)
  end.

(** amd64: CVTTSD2SQ answers every unrepresentable operand with the "integer
    indefinite" value 0x8000000000000000, whose low 16 bits are 0. *)
Definition amd64 (w : Z) (f : float) : Z :=
  if w =? 64 then Int.min_int64 else 0.

Definition Pi : float := 0x1.921fb54442d18p+1%float.

End F64.

(** ** The cosine table and the fast trigonometric functions *)

Section Trig.

Variable math_Cos : float -> float.
Variable cvt : Z -> float -> Z.

Definition len_cosTable : Z := 65536.

(** [init]: entry [i] is [math.Cos(float64(i) * math.Pi / 2 / 65536)]. *)
Definition cosTable (i : Z) : float :=
  math_Cos (F64.of_int i * F64.Pi / 2 / F64.of_int len_cosTable)%float.

(** Indexing the array: outside [0, 65535] the program panics. *)
Definition cosTable_at (i : Z) : option float :=
  if (0 <=? i) && (i <? len_cosTable) then Some (cosTable i) else None.

(** Lines 22-24 of [fastCos01]: the step count reduced to one period. *)
Definition period_fold (i : Z) : Z :=
  if 4 * len_cosTable <? i then Int.rem i (4 * len_cosTable) else i.

(** Lines 18-24: the phase as a count of table steps. *)
Definition phase (x : float) : Z :=
  let x := if (x <? 0)%float then (- x)%float else x in
  period_fold (F64.to_int cvt 64 (262144 * x)%float).

(** Lines 25-36: the [switch] folding the phase into the first quadrant;
    the result is the folded index and the sign. *)
Definition quadrant (i : Z) : Z * Z :=
  if i <? len_cosTable then (i, 1)
  else if i <? len_cosTable * 2 then (len_cosTable * 2 - i, -1)
  else if i <? len_cosTable * 3 then (i - len_cosTable * 2, -1)
  else (len_cosTable * 4 - i, 1).

Definition fastCos01 (x : float) : option float :=
  let '(i, sign) := quadrant (phase x) in
  if i =? len_cosTable then Some 0%float
  else match cosTable_at i with
       | Some c => Some (F64.of_int sign * c)%float
       | None => None
       end.

Definition fastSin01 (x : float) : option float :=
  fastCos01 (x - 0.25)%float.

Definition sinc01 (x : float) : option float :=
  if (abs x <? 0x1.5798ee2308c3ap-27)%float then Some 1%float
  else match fastSin01 x with
       | Some s => Some (s / (x * 2 * F64.Pi))%float
       | None => None
       end.

End Trig.

(** ** Bytes, errors and outcomes *)

Definition byte_val (b : byte) : Z := Z.of_N (Byte.to_N b).

(** [uint8(z)] as a byte. *)
Definition to_byte (z : Z) : byte :=
  match Byte.of_N (Z.to_N (Int.uint8 z)) with
  | Some b => b
  | None => Byte.x00
  end.

(** Go's [error] values as far as the package tells them apart: [io.EOF]
    and every other error. *)
Inductive error : Type :=
| EOF
| IOError (code : nat).


(** What a call ends in: a value with a [nil] error, an error (the other
    results are then the zero values the code returns), a run-time panic,
    or no end at all (the model ran out of [fuel]). *)
Inductive result (A : Type) : Type :=
| Ok (a : A)
| Err (e : error)
| Panic
| Diverge.

Arguments Ok {A} a.
Arguments Err {A} e.
Arguments Panic {A}.
Arguments Diverge {A}.

(** [io.SeekStart], [io.SeekCurrent], [io.SeekEnd]. *)
Definition SeekStart : Z := 0.
Definition SeekCurrent : Z := 1.
Definition SeekEnd : Z := 2.

(** [ReadSeekCloser]: the interface the package consumes.  [rsc_Read s n]
    is [Read(p)] on a slice of length [n]: the bytes it reports as read
    (they sit at the front of [p]) and its error.  [rsc_Seek s offset whence]
    returns the new offset and the error. *)
Class ReadSeekCloser (Src : Type) : Type := {
  rsc_Read : Src -> nat -> Src * (list byte * option error);
  rsc_Seek : Src -> Z -> Z -> Src * (Z * option error);
  rsc_Close : Src -> Src * option error
}.

(** [b[k] = v]: a store outside the slice panics. *)
Definition store (b : list byte) (k : nat) (v : byte) : option (list byte) :=
  if (k <? length b)%nat then Some (<[k := v]> b) else None.

(** [for i := i0; i < i0 + k; i++ { body }] over a buffer; [None] when an
    iteration panics. *)
Fixpoint for_loop (body : nat -> list byte -> option (list byte))
    (i k : nat) (b : list byte) : option (list byte) :=
  match k with
  | O => Some b
  | S k' =>
      match body i b with
      | Some b' => for_loop body (S i) k' b'
      | None => None
      end
  end.

(** Four consecutive stores [b[4i], ..., b[4i+3]]. *)
Definition store4 (b : list byte) (i : nat) (v0 v1 v2 v3 : byte)
    : option (list byte) :=
  b0 ← store b (4 * i) v0;
  b1 ← store b0 (4 * i + 1) v1;
  b2 ← store b1 (4 * i + 2) v2;
  store b2 (4 * i + 3) v3.

(** A signed 16-bit sample from its two little-endian bytes, as [src]
    decodes it: [int16(lo) | int16(hi) << 8]. *)
Definition sample16 (lo hi : byte) : Z :=
  Z.lor (byte_val lo) (Int.int16 (Z.shiftl (byte_val hi) 8)).

(** ** Stereo16: mono and 8-bit sources as stereo 16-bit *)

Module Stereo16.

Section Def.

Context {Src : Type} `{ReadSeekCloser Src}.

Record Stereo16 : Type := {
  source : Src;
  mono : bool;
  eight : bool
}.

Definition NewStereo16 (source : Src) (mono eight : bool) : Stereo16 :=
  {| source := source; mono := mono; eight := eight |}.

(** [int16(int(x)*0x101 - (1 << 15))] *)
Definition expand8 (x : byte) : Z :=
  Int.int16 (byte_val x * 257 - 32768).

Definition body_mono_eight (buf : list byte) (i : nat) (b : list byte)
    : option (list byte) :=
  x ← buf !! i;
  let v := expand8 x in
  store4 b i (to_byte v) (to_byte (Z.shiftr v 8))
             (to_byte v) (to_byte (Z.shiftr v 8)).

Definition body_mono_sixteen (buf : list byte) (i : nat) (b : list byte)
    : option (list byte) :=
  x0 ← buf !! (2 * i)%nat;
  x1 ← buf !! (2 * i + 1)%nat;
  store4 b i x0 x1 x0 x1.

Definition body_stereo_eight (buf : list byte) (i : nat) (b : list byte)
    : option (list byte) :=
  x0 ← buf !! (2 * i)%nat;
  x1 ← buf !! (2 * i + 1)%nat;
  let v0 := expand8 x0 in
  let v1 := expand8 x1 in
  store4 b i (to_byte v0) (to_byte (Z.shiftr v0 8))
             (to_byte v1) (to_byte (Z.shiftr v1 8)).

(** [Read(b)]: the state after the call and, unless it panics, the buffer
    [b] as the call leaves it with the two results [(n, err)]. *)
Definition Read (s : Stereo16) (b : list byte)
    : Stereo16 * option (list byte * (Z * option error)) :=
  let l := length b in
  let l := if mono s then (l / 2)%nat else l in
  let l := if eight s then (l / 2)%nat else l in
  let '(src', (buf, err)) := rsc_Read (source s) l in
  let s' := {| source := src'; mono := mono s; eight := eight s |} in
  let n := length buf in
  match err with
  | Some (IOError c) => (s', Some (b, (0, Some (IOError c))))
  | _ =>
      let filled :=
        match mono s, eight s with
        | true, true => for_loop (body_mono_eight buf) 0 n b
        | true, false => for_loop (body_mono_sixteen buf) 0 (n / 2) b
        | false, true => for_loop (body_stereo_eight buf) 0 (n / 2) b
        | false, false => Some b
        end in
      let n := Z.of_nat n in
      let n := if mono s then Int.int64 (n * 2) else n in
      let n := if eight s then Int.int64 (n * 2) else n in
      (s', b' ← filled; Some (b', (n, err)))
  end.

Definition Seek (s : Stereo16) (offset whence : Z)
    : Stereo16 * (Z * option error) :=
  let offset := if mono s then Int.div offset 2 else offset in
  let offset := if eight s then Int.div offset 2 else offset in
  let '(src', res) := rsc_Seek (source s) offset whence in
  ({| source := src'; mono := mono s; eight := eight s |}, res).

Definition Close (s : Stereo16) : Stereo16 * option error :=
  let '(src', res) := rsc_Close (source s) in
  ({| source := src'; mono := mono s; eight := eight s |}, res).

End Def.

Arguments Stereo16 Src : clear implicits.

End Stereo16.

(** ** Resampling: the block cache, the interpolator and the stream *)

Module Resampling.

Section Def.

Context {Src : Type} `{ReadSeekCloser Src}.
Variable math_Cos : float -> float.
Variable cvt : Z -> float -> Z.

Record Resampling : Type := {
  source : Src;
  size : Z;
  from : Z;
  to : Z;
  pos : Z;
  srcBlock : Z;
  srcBufL : gmap Z (list float);
  srcBufR : gmap Z (list float);
  lruSrcBlocks : list Z
}.

Definition NewResampling (source : Src) (size from to : Z) : Resampling :=
  {| source := source; size := size; from := from; to := to;
     pos := 0; srcBlock := -1;
     srcBufL := ∅; srcBufR := ∅; lruSrcBlocks := [] |}.

Definition set_source (r : Resampling) (s : Src) : Resampling :=
  {| source := s; size := size r; from := from r; to := to r;
     pos := pos r; srcBlock := srcBlock r;
     srcBufL := srcBufL r; srcBufR := srcBufR r;
     lruSrcBlocks := lruSrcBlocks r |}.

Definition set_pos (r : Resampling) (p : Z) : Resampling :=
  {| source := source r; size := size r; from := from r; to := to r;
     pos := p; srcBlock := srcBlock r;
     srcBufL := srcBufL r; srcBufR := srcBufR r;
     lruSrcBlocks := lruSrcBlocks r |}.

Definition set_cache (r : Resampling) (blk : Z)
    (bl br : gmap Z (list float)) (lru : list Z) : Resampling :=
  {| source := source r; size := size r; from := from r; to := to r;
     pos := pos r; srcBlock := blk;
     srcBufL := bl; srcBufR := br; lruSrcBlocks := lru |}.

Definition Length (r : Resampling) : Z :=
  let s := F64.to_int cvt 64
             (F64.of_int (size r) * F64.of_int (to r) / F64.of_int (from r))%float in
  Int.int64 (Int.div s 4 * 4).

Definition resamplingBufferSize : Z := 4096.

Definition block_bytes : nat := Z.to_nat (resamplingBufferSize * 4).

(** The loop of lines 102-111 followed by [buf = buf[:c]]: [acc] holds the
    [c] bytes read so far. *)
Fixpoint read_block (fuel : nat) (s : Src) (acc : list byte)
    : Src * result (list byte) :=
  let finish (acc : list byte) : result (list byte) :=
    if (length acc <=? block_bytes)%nat then Ok acc else Panic in
  match fuel with
  | O => (s, Diverge)
  | S fuel' =>
      if (length acc <? block_bytes)%nat then
        let '(s', (data, err)) := rsc_Read s (block_bytes - length acc)%nat in
        let acc' := acc ++ data in
        match err with
        | None => read_block fuel' s' acc'
        | Some EOF => (s', finish acc')
        | Some e => (s', Err e)
        end
      else (s, finish acc)
  end.

(** Lines 113-118: a block of 4096 samples, zero beyond the frames read;
    [ch] is the byte offset of the channel inside a frame (0 left, 2 right). *)
Definition decode_block (ch : nat) (buf : list byte) : list float :=
  map (fun i : nat =>
         if (i <? length buf / 4)%nat then
           (F64.of_int (sample16 (nth (4 * i + ch) buf Byte.x00)
                                 (nth (4 * i + ch + 1) buf Byte.x00))
            / 32767)%float
         else 0%float)
      (seq 0 (Z.to_nat resamplingBufferSize)).

(** Lines 145-146. *)
Definition fetch (r : Resampling) (i : Z) : result (float * float) :=
  let ii := Z.to_nat (Int.rem i resamplingBufferSize) in
  match srcBufL r !! srcBlock r, srcBufR r !! srcBlock r with
  | Some sl, Some sr =>
      match sl !! ii, sr !! ii with
      | Some l, Some r => Ok (l, r)
      | _, _ => Panic
      end
  | _, _ => Panic
  end.

(** The index of the first entry equal to [p] (lines 132-138). *)
Fixpoint index_of (p : Z) (l : list Z) : option nat :=
  match l with
  | [] => None
  | q :: l' => if q =? p then Some O else S <$> index_of p l'
  end.

(** Lines 95-99: the source is repositioned unless the block follows the
    one loaded last. *)
Definition seek_block (r : Resampling) (nextPos : Z) : Src * option error :=
  if negb (Int.int64 (srcBlock r + 1) =? nextPos) then
    let '(s1, (_, e)) :=
      rsc_Seek (source r)
        (Int.int64 (nextPos * resamplingBufferSize * 4)) SeekStart in
    (s1, e)
  else (source r, None).

(** Lines 123-128. *)
Definition evict (r : Resampling) : option Resampling :=
  if (4 <=? length (lruSrcBlocks r))%nat then
    match lruSrcBlocks r with
    | p :: rest =>
        Some (set_cache r (srcBlock r)
                (delete p (srcBufL r)) (delete p (srcBufR r)) rest)
    | [] => None
    end
  else Some r.

Definition src (fuel : nat) (i : Z) (r : Resampling)
    : Resampling * result (float * float) :=
  if i <? 0 then (r, Ok (0%float, 0%float))
  else if Int.div (size r) 4 <=? i then (r, Ok (0%float, 0%float))
  else
    let nextPos := Int.div i resamplingBufferSize in
    match srcBufL r !! nextPos with
    | None =>
        match seek_block r nextPos with
        | (s1, Some e) => (set_source r s1, Err e)
        | (s1, None) =>
            match read_block fuel s1 [] with
            | (s2, Ok buf) =>
                let r1 := set_cache (set_source r s2) nextPos
                            (<[nextPos := decode_block 0 buf]> (srcBufL r))
                            (<[nextPos := decode_block 2 buf]> (srcBufR r))
                            (lruSrcBlocks r) in
                match evict r1 with
                | Some r2 =>
                    let r3 := set_cache r2 (srcBlock r2)
                                (srcBufL r2) (srcBufR r2)
                                (lruSrcBlocks r2 ++ [srcBlock r2]) in
                    (r3, fetch r3 i)
                | None => (r1, Panic)
                end
            | (s2, Err e) => (set_source r s2, Err e)
            | (s2, Panic) => (set_source r s2, Panic)
            | (s2, Diverge) => (set_source r s2, Diverge)
            end
        end
    | Some _ =>
        let r1 := set_cache r nextPos (srcBufL r) (srcBufR r)
                    (lruSrcBlocks r) in
        match index_of (srcBlock r1) (lruSrcBlocks r1) with
        | None => (r1, Panic)
        | Some idx =>
            let r2 := set_cache r1 (srcBlock r1) (srcBufL r1) (srcBufR r1)
                        ((take idx (lruSrcBlocks r1)
                          ++ drop (S idx) (lruSrcBlocks r1))
                         ++ [srcBlock r1]) in
            (r2, fetch r2 i)
        end
    end.

Definition windowSize : float := 8%float.

(** Line 151. *)
Definition tInSrc (r : Resampling) (t : Z) : float :=
  (F64.of_int t * F64.of_int (from r) / F64.of_int (to r))%float.

(** Lines 152-158. *)
Definition startN (r : Resampling) (t : Z) : Z :=
  let n := F64.to_int cvt 64 (tInSrc r t - windowSize)%float in
  let n := if n <? 0 then 0 else n in
  if Int.div (size r) 4 <=? n then Int.int64 (Int.div (size r) 4 - 1) else n.

(** Lines 159-162. *)
Definition endN (r : Resampling) (t : Z) : Z :=
  let n := F64.to_int cvt 64 (tInSrc r t + windowSize)%float in
  if Int.div (size r) 4 <=? n then Int.int64 (Int.div (size r) 4 - 1) else n.

(** Lines 170-172: the factor [s] applied to source frame [n]. *)
Definition weight (tsrc : float) (n : Z) : option float :=
  let d := (tsrc - F64.of_int n)%float in
  c ← fastCos01 math_Cos cvt (d / (windowSize * 2 + 1))%float;
  let w := (0.5 + 0.5 * c)%float in
  k ← sinc01 math_Cos cvt (d / 2)%float;
  Some (k * w)%float.

(** The loop of lines 165-175, [k] iterations from frame [n] on. *)
Fixpoint at_loop (fuel : nat) (tsrc : float) (k : nat) (n : Z)
    (lv rv : float) (r : Resampling) : Resampling * result (float * float) :=
  match k with
  | O => (r, Ok (lv, rv))
  | S k' =>
      match src fuel n r with
      | (r1, Ok (srcL, srcR)) =>
          match weight tsrc n with
          | Some s =>
              at_loop fuel tsrc k' (n + 1)
                (lv + srcL * s)%float (rv + srcR * s)%float r1
          | None => (r1, Panic)
          end
      | (r1, Err e) => (r1, Err e)
      | (r1, Panic) => (r1, Panic)
      | (r1, Diverge) => (r1, Diverge)
      end
  end.

(** Lines 176-187, for one channel. *)
Definition clamp1 (v : float) : float :=
  let v := if (v <? -1)%float then (-1)%float else v in
  if (1 <? v)%float then 1%float else v.

(** [at] (the name is reserved in Rocq). *)
Definition at_ (fuel : nat) (t : Z) (r : Resampling)
    : Resampling * result (float * float) :=
  let a := startN r t in
  let b := endN r t in
  match at_loop fuel (tInSrc r t) (Z.to_nat (b - a + 1)) a 0%float 0%float r with
  | (r1, Ok (lv, rv)) => (r1, Ok (clamp1 lv, clamp1 rv))
  | other => other
  end.

(** The loop of lines 199-210: [k] frames from index [i] on, the cursor
    staying at [pos r]; the buffer is returned as far as it was written. *)
Fixpoint read_loop (fuel : nat) (k : nat) (i : nat) (b : list byte)
    (r : Resampling) : Resampling * (list byte * result unit) :=
  match k with
  | O => (r, (b, Ok tt))
  | S k' =>
      match at_ fuel (Int.int64 (Int.div (pos r) 4 + Z.of_nat i)) r with
      | (r1, Ok (l, r_)) =>
          let l16 := F64.to_int cvt 16 (l * 32767)%float in
          let r16 := F64.to_int cvt 16 (r_ * 32767)%float in
          match store4 b i (to_byte l16) (to_byte (Z.shiftr l16 8))
                           (to_byte r16) (to_byte (Z.shiftr r16 8)) with
          | Some b' => read_loop fuel k' (S i) b' r1
          | None => (r1, (b, Panic))
          end
      | (r1, Err e) => (r1, (b, Err e))
      | (r1, Panic) => (r1, (b, Panic))
      | (r1, Diverge) => (r1, (b, Diverge))
      end
  end.

(** [Read(b)]: the state and the buffer after the call, and [n] or the
    error. *)
Definition Read (fuel : nat) (b : list byte) (r : Resampling)
    : Resampling * (list byte * result Z) :=
  if pos r =? Length r then (r, (b, Err EOF))
  else
    let n := Int.div (Z.of_nat (length b)) 4 * 4 in
    let n := if Int.int64 (Length r - pos r) <=? n
             then Int.int64 (Length r - pos r) else n in
    match read_loop fuel (Z.to_nat (Int.div n 4)) 0 b r with
    | (r1, (b', Ok _)) => (set_pos r1 (Int.int64 (pos r1 + n)), (b', Ok n))
    | (r1, (b', Err e)) => (r1, (b', Err e))
    | (r1, (b', Panic)) => (r1, (b', Panic))
    | (r1, (b', Diverge)) => (r1, (b', Diverge))
    end.

(** The [switch] of [Seek]: the cursor before it is clamped. *)
Definition seek_target (offset whence : Z) (r : Resampling) : Z :=
  if whence =? SeekStart then offset
  else if whence =? SeekCurrent then Int.int64 (pos r + offset)
  else if whence =? SeekEnd then
    Int.int64 (pos r + Int.int64 (Length r + offset))
  else pos r.

Definition Seek (offset whence : Z) (r : Resampling)
    : Resampling * (Z * option error) :=
  let p := seek_target offset whence r in
  let p := if p <? 0 then 0 else p in
  let p := if Length r <=? p then Length r else p in
  (set_pos r p, (p, None)).

Definition Close (r : Resampling) : Resampling * option error :=
  let '(s', e) := rsc_Close (source r) in (set_source r s', e).

End Def.

Arguments Resampling Src : clear implicits.

End Resampling.

(** ** An in-memory source

    A byte slice with a read offset, in the manner of [bytes.Reader]: [Read]
    hands out what is left (at most the slice asked for) and reports
    [io.EOF] once nothing is left; [Seek] fails on a negative target.  With
    [fails_at = Some k] every read at offset [k] or beyond fails with an
    I/O error instead. *)

Record MemSource : Type := {
  mem_data : list byte;
  mem_off : nat;
  mem_fails_at : option nat
}.

Definition mem_Read (s : MemSource) (n : nat)
    : MemSource * (list byte * option error) :=
  match mem_fails_at s with
  | Some k =>
      if (k <=? mem_off s)%nat then (s, ([], Some (IOError 5)))
      else
        let out := take (Nat.min n (k - mem_off s)) (drop (mem_off s) (mem_data s)) in
        ({| mem_data := mem_data s; mem_off := mem_off s + length out;
            mem_fails_at := mem_fails_at s |}, (out, None))
  | None =>
      if (length (mem_data s) <=? mem_off s)%nat then (s, ([], Some EOF))
      else
        let out := take n (drop (mem_off s) (mem_data s)) in
        ({| mem_data := mem_data s; mem_off := mem_off s + length out;
            mem_fails_at := mem_fails_at s |}, (out, None))
  end.

Definition mem_Seek (s : MemSource) (offset whence : Z)
    : MemSource * (Z * option error) :=
  let target :=
    if whence =? SeekStart then offset
    else if whence =? SeekCurrent then Z.of_nat (mem_off s) + offset
    else Z.of_nat (length (mem_data s)) + offset in
  if target <? 0 then (s, (0, Some (IOError 22)))
  else ({| mem_data := mem_data s; mem_off := Z.to_nat target;
           mem_fails_at := mem_fails_at s |}, (target, None)).

#[export] Instance MemSource_rsc : ReadSeekCloser MemSource := {
  rsc_Read := mem_Read;
  rsc_Seek := mem_Seek;
  rsc_Close := fun s => (s, None)
}.

(** * Facts about binary64

    What the proofs below need of IEEE 754 arithmetic, from the specification
    of the primitive floats. *)

Lemma digits2_pos_upper (m : positive) : Zpos m < 2 ^ Zpos (digits2_pos m).
Proof.
  induction m as [m IH | m IH |]; cbn [digits2_pos]; [| | reflexivity];
    rewrite Pos2Z.inj_succ, Z.pow_succ_r by lia; lia.
Qed.

Lemma digits2_pos_lower (m : positive) : 2 ^ (Zpos (digits2_pos m) - 1) <= Zpos m.
Proof.
  induction m as [m IH | m IH |]; cbn [digits2_pos]; [| | reflexivity];
    rewrite Pos2Z.inj_succ;
    replace (Z.succ (Zpos (digits2_pos m)) - 1) with (Z.succ (Zpos (digits2_pos m) - 1)) by lia;
    rewrite Z.pow_succ_r by lia; lia.
Qed.

Lemma valid_finite (s : bool) (m : positive) (e : Z) :
  valid_binary (S754_finite s m e) = true ->
  fexp prec emax (Zpos (digits2_pos m) + e) = e /\ e <= 971.
Proof.
  unfold SpecFloat.valid_binary, bounded, canonical_mantissa.
  intros Hv. apply andb_prop in Hv as [H1 H2].
  apply Z.eqb_eq in H1. apply Z.leb_le in H2.
  split; [exact H1 |]. change (emax - prec) with 971 in H2. exact H2.
Qed.

Lemma fexp_eq (k : Z) : fexp prec emax k = Z.max (k - 53) (-1074).
Proof. reflexivity. Qed.

Lemma digits2_pos_unique (m : positive) (d : Z) :
  2 ^ (d - 1) <= Zpos m < 2 ^ d -> Zpos (digits2_pos m) = d.
Proof.
  intros [Hlo Hhi].
  pose proof (digits2_pos_upper m) as Hu.
  pose proof (digits2_pos_lower m) as Hl.
  set (d0 := Zpos (digits2_pos m)) in *.
  assert (Hd0 : 0 < d0) by (subst d0; lia).
  destruct (Z.lt_trichotomy d0 d) as [Hlt | [Heq | Hgt]]; [| exact Heq |].
  - assert (2 ^ d0 <= 2 ^ (d - 1)) by (apply Z.pow_le_mono_r; lia). lia.
  - assert (0 <= d) by (destruct d; try lia; rewrite Z.pow_neg_r in Hhi; lia).
    assert (2 ^ d <= 2 ^ (d0 - 1)) by (apply Z.pow_le_mono_r; lia). lia.
Qed.

Lemma digits2_pos_shift (q : positive) (j : Z) (M : positive) :
  0 <= j -> Zpos M = Zpos q * 2 ^ j ->
  Zpos (digits2_pos M) = Zpos (digits2_pos q) + j.
Proof.
  intros Hj HM. apply digits2_pos_unique.
  pose proof (digits2_pos_upper q) as Hu.
  pose proof (digits2_pos_lower q) as Hl.
  assert (0 < 2 ^ j) by (apply Z.pow_pos_nonneg; lia).
  rewrite HM. split.
  - replace (Zpos (digits2_pos q) + j - 1) with ((Zpos (digits2_pos q) - 1) + j) by lia.
    rewrite Z.pow_add_r by lia. nia.
  - rewrite Z.pow_add_r by lia. nia.
Qed.

Lemma iter_shr_exact (p : positive) :
  forall q : positive,
    SpecFloat.iter_pos shr_1 p
      {| shr_m := Zpos q * 2 ^ Zpos p; shr_r := false; shr_s := false |}
    = {| shr_m := Zpos q; shr_r := false; shr_s := false |}.
Proof.
  assert (Hstep : forall q : positive,
             shr_1 {| shr_m := Zpos q * 2; shr_r := false; shr_s := false |}
             = {| shr_m := Zpos q; shr_r := false; shr_s := false |}).
  { intros q. replace (Zpos q * 2) with (Zpos (q~0)) by lia. reflexivity. }
  assert (Hpos : forall (q k : positive), Zpos q * 2 ^ Zpos k = Zpos (q * 2 ^ k)).
  { intros q k. rewrite Pos2Z.inj_mul, Pos2Z.inj_pow. reflexivity. }
  induction p as [p IH | p IH |]; intros q; cbn [SpecFloat.iter_pos].
  - replace (Zpos q * 2 ^ Zpos p~1)
      with (Zpos (q * 2 ^ p * 2 ^ p) * 2).
    + rewrite Hstep. rewrite <- Hpos, IH. rewrite <- Hpos. apply IH.
    + rewrite <- !Hpos.
      replace (Zpos p~1) with (Zpos p + Zpos p + 1) by lia.
      rewrite !Z.pow_add_r by lia. change (2 ^ 1) with 2. ring.
  - replace (Zpos q * 2 ^ Zpos p~0) with (Zpos (q * 2 ^ p) * 2 ^ Zpos p).
    + rewrite IH. rewrite <- Hpos. apply IH.
    + rewrite <- Hpos.
      replace (Zpos p~0) with (Zpos p + Zpos p) by lia.
      rewrite Z.pow_add_r by lia. ring.
  - change (2 ^ 1) with 2. apply Hstep.
Qed.

(** Rounding a value that the format holds exactly: [M = m * 2^j] at exponent
    [e - j] is the float of mantissa [m * 2^(e - E)] at the canonical exponent
    [E] of [m * 2^e]. *)
Lemma binary_round_aux_exact (s : bool) (m M : positive) (j e : Z) :
  let E := fexp prec emax (Zpos (digits2_pos m) + e) in
  0 <= j -> Zpos M = Zpos m * 2 ^ j ->
  e - j <= E <= e -> E <= 971 ->
  exists m' : positive,
    Zpos m' = Zpos m * 2 ^ (e - E) /\
    binary_round_aux prec emax s (Zpos M) (e - j) loc_Exact = S754_finite s m' E.
Proof.
  intros E Hj HM HE Hmax.
  assert (Hq : exists m' : positive, Zpos m' = Zpos m * 2 ^ (e - E)).
  { assert (0 < Zpos m * 2 ^ (e - E)).
    { apply Z.mul_pos_pos; [lia | apply Z.pow_pos_nonneg; lia]. }
    destruct (Zpos m * 2 ^ (e - E)) as [| r | r] eqn:Hr; try lia. now exists r. }
  destruct Hq as [m' Hm']. exists m'. split; [exact Hm' |].
  assert (HdM : Zpos (digits2_pos M) = Zpos (digits2_pos m) + j)
    by (apply digits2_pos_shift; assumption).
  assert (Hdm' : Zpos (digits2_pos m') = Zpos (digits2_pos m) + (e - E))
    by (apply digits2_pos_shift; [lia | assumption]).
  assert (Hfirst : shr_fexp prec emax (Zpos M) (e - j) loc_Exact
                   = ({| shr_m := Zpos m'; shr_r := false; shr_s := false |}, E)).
  { unfold shr_fexp. cbn [Zdigits2 shr_record_of_loc]. rewrite HdM.
    replace (Zpos (digits2_pos m) + j + (e - j)) with (Zpos (digits2_pos m) + e) by lia.
    fold E. unfold shr.
    destruct (E - (e - j)) as [| k | k] eqn:Hk; try lia.
    - assert (e - E = j) by lia. f_equal; [| lia]. f_equal. rewrite Hm', HM. congruence.
    - f_equal; [| lia].
      replace (Zpos M) with (Zpos m' * 2 ^ Zpos k).
      + apply iter_shr_exact.
      + rewrite HM, Hm', <- Z.mul_assoc, <- Z.pow_add_r by lia. do 2 f_equal. lia. }
  unfold binary_round_aux. rewrite Hfirst.
  cbn [shr_m loc_of_shr_record round_nearest_even].
  unfold shr_fexp. cbn [Zdigits2 shr_record_of_loc]. rewrite Hdm'.
  replace (Zpos (digits2_pos m) + (e - E) + E) with (Zpos (digits2_pos m) + e) by lia.
  fold E. rewrite Z.sub_diag. cbn [shr shr_m].
  change (emax - prec) with 971.
  destruct (Z.leb_spec E 971); [reflexivity | lia].
Qed.

(** Multiplying by the power of two [2^p], [0 <= p]: the constant is the float
    of mantissa [2^52] and exponent [p - 52], and the product is exact as long
    as it does not overflow. *)
Lemma SFmul_pow2 (p : Z) (s : bool) (m : positive) (e : Z) :
  let E := fexp prec emax (Zpos (digits2_pos m) + (e + p)) in
  0 <= p -> valid_binary (S754_finite s m e) = true -> E <= 971 ->
  exists m' : positive,
    Zpos m' = Zpos m * 2 ^ (e + p - E) /\
    SF64mul (S754_finite false 4503599627370496 (p - 52)) (S754_finite s m e)
    = S754_finite s m' E.
Proof.
  intros E Hp Hv HE.
  apply valid_finite in Hv as [Hcan Hemax].
  rewrite fexp_eq in Hcan.
  pose proof (binary_round_aux_exact s m (4503599627370496 * m) 52 (e + p)) as Hx.
  cbv zeta in Hx. fold E in Hx.
  destruct Hx as [m' [Hm' Hr]].
  - lia.
  - rewrite Pos2Z.inj_mul. change (2 ^ 52) with 4503599627370496. lia.
  - subst E. rewrite fexp_eq. lia.
  - exact HE.
  - exists m'. split; [exact Hm' |].
    unfold SF64mul, SFmul. cbn [xorb].
    replace (p - 52 + e) with (e + p - 52) by lia. exact Hr.
Qed.

Lemma Prim2SF_one : Prim2SF 1 = S754_finite false 4503599627370496 (-52).
Proof. reflexivity. Qed.

Lemma mul_one_l (c : float) : (1 * c)%float = c.
Proof.
  apply Prim2SF_inj. rewrite mul_spec, Prim2SF_one.
  pose proof (Prim2SF_valid c) as Hv.
  destruct (Prim2SF c) as [s | s | | s m e]; try reflexivity.
  pose proof (valid_finite _ _ _ Hv) as [Hcan Hemax].
  destruct (SFmul_pow2 0 s m e) as [m' [Hm' Hr]]; try lia; try assumption.
  - rewrite Z.add_0_r, Hcan. exact Hemax.
  - change (0 - 52) with (-52) in Hr. rewrite Hr.
    rewrite Z.add_0_r, Hcan in *. rewrite Z.sub_diag in Hm'.
    f_equal. lia.
Qed.

Lemma mul_minus_one_l (c : float) : (-1 * c)%float = (- c)%float.
Proof.
  apply Prim2SF_inj. rewrite mul_spec, opp_spec.
  change (Prim2SF (-1)) with (S754_finite true 4503599627370496 (-52)).
  pose proof (mul_one_l c) as H1.
  apply (f_equal Prim2SF) in H1. rewrite mul_spec, Prim2SF_one in H1.
  destruct (Prim2SF c) as [s | s | | s m e]; try reflexivity.
  unfold SF64mul, SFmul in *. cbn [xorb] in *.
  generalize dependent H1. unfold binary_round_aux.
  destruct (shr_fexp prec emax (Zpos (4503599627370496 * m)) (-52 + e) loc_Exact) as [mrs e'].
  destruct (shr_fexp prec emax (round_nearest_even (shr_m mrs) (loc_of_shr_record mrs)) e' loc_Exact) as [mrs' e''].
  destruct (shr_m mrs'); [discriminate | | discriminate].
  destruct (e'' <=? emax - prec); [| discriminate].
  intros H1. injection H1 as -> ->. reflexivity.
Qed.

(** The sign a float carries, NaN apart. *)
Definition sf_sign_is (sx : bool) (x : spec_float) : Prop :=
  match x with
  | S754_zero s | S754_infinity s | S754_finite s _ _ => s = sx
  | S754_nan => True
  end.

Lemma binary_round_aux_sign (sx : bool) (mx ex : Z) (lx : location) :
  sf_sign_is sx (binary_round_aux prec emax sx mx ex lx).
Proof.
  unfold binary_round_aux.
  destruct (shr_fexp prec emax mx ex lx) as [mrs e'].
  destruct (shr_fexp prec emax _ e' loc_Exact) as [mrs' e''].
  destruct (shr_m mrs'); [reflexivity | | exact I].
  destruct (e'' <=? emax - prec); reflexivity.
Qed.

Lemma binary_round_sign (sx : bool) (mx : positive) (ex : Z) :
  sf_sign_is sx (binary_round prec emax sx mx ex).
Proof.
  unfold binary_round.
  destruct (shl_align mx ex _) as [mz ez]. apply binary_round_aux_sign.
Qed.

Lemma binary_normalize_nonneg (z e : Z) :
  0 <= z -> sf_sign_is false (binary_normalize prec emax z e false).
Proof.
  intros Hz. destruct z as [| p | p]; [reflexivity | | lia].
  apply binary_round_sign.
Qed.

Lemma SFldexp_sign (sx : bool) (x : spec_float) (e : Z) :
  sf_sign_is sx x -> sf_sign_is sx (SFldexp prec emax x e).
Proof.
  destruct x as [s | s | | s m ex]; cbn; trivial.
  intros ->. apply binary_round_sign.
Qed.

Lemma of_int_nonneg (z : Z) :
  0 <= z -> sf_sign_is false (Prim2SF (F64.of_int z)).
Proof.
  intros Hz. unfold F64.of_int.
  pose proof (binary_normalize_nonneg z 0 Hz) as Hn.
  destruct (binary_normalize prec emax z 0 false) as [s | s | | s m e];
    cbn in Hn; subst; try reflexivity.
  cbn [SF2Prim]. rewrite Z_ldexp_spec, of_uint63_spec.
  apply SFldexp_sign, binary_normalize_nonneg.
  pose proof (Uint63.to_Z_bounded (Uint63.of_Z (Zpos m))). lia.
Qed.

Lemma SFmul_nonneg (x y : spec_float) :
  sf_sign_is false x -> sf_sign_is false y -> sf_sign_is false (SF64mul x y).
Proof.
  destruct x as [sx | sx | | sx mx ex], y as [sy | sy | | sy my ey];
    cbn; intros; subst; trivial.
  apply binary_round_aux_sign.
Qed.

Lemma SFdiv_nonneg (x y : spec_float) :
  sf_sign_is false x -> sf_sign_is false y -> sf_sign_is false (SF64div x y).
Proof.
  destruct x as [sx | sx | | sx mx ex], y as [sy | sy | | sy my ey];
    cbn -[SFdiv_core_binary]; intros; subst; trivial.
  destruct (SFdiv_core_binary prec emax (Zpos mx) ex (Zpos my) ey) as [[mz ez] lz].
  apply binary_round_aux_sign.
Qed.

Lemma valid_mantissa_bound (s : bool) (m : positive) (e : Z) :
  valid_binary (S754_finite s m e) = true -> Zpos m < 2 ^ 53.
Proof.
  intros Hv. apply valid_finite in Hv as [Hcan _]. rewrite fexp_eq in Hcan.
  pose proof (digits2_pos_upper m) as Hu.
  assert (2 ^ Zpos (digits2_pos m) <= 2 ^ 53) by (apply Z.pow_le_mono_r; lia).
  lia.
Qed.

Lemma shiftl_bound (m e k n : Z) :
  0 <= m < 2 ^ k -> 0 <= k -> 0 <= n -> e <= n -> 0 <= Z.shiftl m e < 2 ^ (k + n).
Proof.
  intros Hm Hk Hn He. split; [apply Z.shiftl_nonneg; lia |].
  assert (H2k : 0 < 2 ^ k) by (apply Z.pow_pos_nonneg; lia).
  assert (H2n : 1 <= 2 ^ n) by (apply Z.pow_le_mono_r with (b := 0); lia).
  rewrite Z.pow_add_r by lia.
  destruct (Z.le_gt_cases 0 e) as [Hpos | Hneg].
  - rewrite Z.shiftl_mul_pow2 by lia.
    assert (0 < 2 ^ e <= 2 ^ n)
      by (split; [apply Z.pow_pos_nonneg; lia | apply Z.pow_le_mono_r; lia]).
    nia.
  - replace e with (- (- e)) by lia. rewrite Z.shiftl_opp_r.
    rewrite Z.shiftr_div_pow2 by lia.
    assert (0 < 2 ^ (- e)) by (apply Z.pow_pos_nonneg; lia).
    assert (m / 2 ^ (- e) <= m) by (apply Z.div_le_upper_bound; nia).
    nia.
Qed.

Lemma finite_below_2p63 (m : positive) (e : Z) :
  Zpos m < 2 ^ 53 ->
  SFltb (S754_finite false m e) (S754_finite false 4503599627370496 11) = true ->
  0 <= Z.shiftl (Zpos m) e < 2 ^ 63.
Proof.
  intros Hm Hlt.
    unfold SFltb, SFcompare in Hlt.
    destruct (Z.compare_spec e 11) as [He | He | He]; try discriminate.
    + subst e. rewrite Z.shiftl_mul_pow2 by lia.
      rewrite Pos2Z.inj_compare in Hlt.
      destruct (Z.compare_spec (Zpos m) 4503599627370496) as [Hc | Hc | Hc];
        try discriminate.
      change (2 ^ 63) with (4503599627370496 * 2 ^ 11).
      change (2 ^ 11) with 2048. clear Hlt. lia.
    + change 63 with (53 + 10). apply shiftl_bound; lia.
Qed.

Lemma Prim2SF_2p63 : Prim2SF 0x1p63 = S754_finite false 4503599627370496 11.
Proof. reflexivity. Qed.

(** A non-negative float below [2^63] truncates to a non-negative [int64]. *)
Lemma trunc_below_2p63 (q : float) :
  sf_sign_is false (Prim2SF q) -> (q <? 0x1p63)%float = true ->
  exists v : Z, F64.trunc q = Some v /\ 0 <= v < 2 ^ 63.
Proof.
  intros Hs Hlt. rewrite ltb_spec, Prim2SF_2p63 in Hlt.
  unfold F64.trunc. pose proof (Prim2SF_valid q) as Hv.
  destruct (Prim2SF q) as [s | s | | s m e].
  - exists 0. split; [reflexivity | lia].
  - destruct s; discriminate.
  - discriminate.
  - cbn in Hs. subst s. exists (Z.shiftl (Zpos m) e). split; [reflexivity |].
    apply finite_below_2p63; [| exact Hlt].
    exact (valid_mantissa_bound _ _ _ Hv).
Qed.

(** * Facts about machine integers *)

Lemma wrap_range (w z : Z) :
  0 < w -> - 2 ^ (w - 1) <= Int.wrap w z < 2 ^ (w - 1).
Proof.
  intros Hw. unfold Int.wrap.
  assert (H2 : 2 ^ w = 2 * 2 ^ (w - 1)).
  { replace w with (Z.succ (w - 1)) at 1 by lia. apply Z.pow_succ_r. lia. }
  assert (Hp : 0 < 2 ^ (w - 1)) by (apply Z.pow_pos_nonneg; lia).
  pose proof (Z.mod_pos_bound z (2 ^ w) ltac:(lia)) as Hm.
  cbv zeta. destruct (Z.ltb_spec (z mod 2 ^ w) (2 ^ (w - 1))); lia.
Qed.

Lemma wrap_id (w z : Z) :
  0 < w -> - 2 ^ (w - 1) <= z < 2 ^ (w - 1) -> Int.wrap w z = z.
Proof.
  intros Hw Hz. unfold Int.wrap.
  assert (H2 : 2 ^ w = 2 * 2 ^ (w - 1)).
  { replace w with (Z.succ (w - 1)) at 1 by lia. apply Z.pow_succ_r. lia. }
  assert (Hp : 0 < 2 ^ (w - 1)) by (apply Z.pow_pos_nonneg; lia).
  cbv zeta. destruct (Z.le_gt_cases 0 z) as [Hnn | Hneg].
  - rewrite Z.mod_small by lia. destruct (Z.ltb_spec z (2 ^ (w - 1))); lia.
  - replace (z mod 2 ^ w) with (z + 2 ^ w).
    + destruct (Z.ltb_spec (z + 2 ^ w) (2 ^ (w - 1))); lia.
    + apply Z.mod_unique with (q := -1); lia.
Qed.

Lemma int64_range (z : Z) : - 2 ^ 63 <= Int.int64 z < 2 ^ 63.
Proof. apply (wrap_range 64 z). lia. Qed.

Lemma int64_id (z : Z) : - 2 ^ 63 <= z < 2 ^ 63 -> Int.int64 z = z.
Proof. apply (wrap_id 64 z). lia. Qed.

Lemma to_int_range (cvt : Z -> float -> Z) (f : float) :
  - 2 ^ 63 <= F64.to_int cvt 64 f < 2 ^ 63.
Proof.
  unfold F64.to_int.
  destruct (F64.trunc f) as [z |]; [| apply int64_range].
  destruct (Int.in_int 64 z) eqn:Hin; [| apply int64_range].
  unfold Int.in_int in Hin. apply andb_prop in Hin as [H1 H2].
  apply Z.leb_le in H1. apply Z.ltb_lt in H2. change (64 - 1) with 63 in *. lia.
Qed.

Lemma to_int_trunc (cvt : Z -> float -> Z) (f : float) (z : Z) :
  F64.trunc f = Some z -> - 2 ^ 63 <= z < 2 ^ 63 -> F64.to_int cvt 64 f = z.
Proof.
  intros Ht Hz. unfold F64.to_int. rewrite Ht.
  unfold Int.in_int. change (64 - 1) with 63.
  destruct (Z.leb_spec (- 2 ^ 63) z); [| lia].
  destruct (Z.ltb_spec z (2 ^ 63)); [reflexivity | lia].
Qed.

(** [s/4*4] for an [int64] [s]: no wrap-around, a multiple of 4 between 0
    and [s]. *)
Lemma quot4_mul4 (s : Z) :
  - 2 ^ 63 <= s < 2 ^ 63 ->
  Int.int64 (Int.div s 4 * 4) = Int.div s 4 * 4
  /\ (4 | Int.div s 4 * 4)
  /\ (0 <= s -> 0 <= Int.div s 4 * 4 <= s).
Proof.
  intros Hs. unfold Int.div.
  pose proof (Z.quot_rem' s 4) as Hqr.
  assert (Habs : 0 <= s -> 0 <= Z.rem s 4 < 4)
    by (intros; apply Z.rem_bound_pos; lia).
  assert (Hneg : s <= 0 -> -4 < Z.rem s 4 <= 0)
    by (intros; apply (Z.rem_bound_pos_neg s 4); lia).
  split; [apply int64_id; lia |].
  split; [exists (Z.quot s 4); reflexivity | lia].
Qed.

(** * The block cache *)

Section Cache.

Context {Src : Type} `{ReadSeekCloser Src}.
Variable math_Cos : float -> float.
Variable cvt : Z -> float -> Z.

Abbreviation Resampling := (Resampling.Resampling Src).
Abbreviation src := Resampling.src.
Abbreviation at_ := (Resampling.at_ math_Cos cvt).
Abbreviation Read := (Resampling.Read math_Cos cvt).
Abbreviation Seek := (Resampling.Seek cvt).


(** At most four resident blocks, none listed twice, and the list and the
    two maps agree on which blocks are resident. *)
Definition cache_inv (r : Resampling) : Prop :=
  (length (Resampling.lruSrcBlocks r) <= 4)%nat
  /\ NoDup (Resampling.lruSrcBlocks r)
  /\ dom (Resampling.srcBufL r) = list_to_set (Resampling.lruSrcBlocks r)
  /\ dom (Resampling.srcBufR r) = list_to_set (Resampling.lruSrcBlocks r).

Lemma index_of_lookup (p : Z) (l : list Z) (idx : nat) :
  Resampling.index_of p l = Some idx -> l !! idx = Some p.
Proof.
  revert idx. induction l as [| q l IH]; intros idx Hi; cbn in Hi; [discriminate |].
  destruct (Z.eqb_spec q p) as [-> | Hne].
  - injection Hi as <-. reflexivity.
  - destruct (Resampling.index_of p l) as [j |] eqn:Hj; [| discriminate].
    injection Hi as <-. cbn. apply IH. reflexivity.
Qed.

Lemma index_of_member (p : Z) (l : list Z) :
  p ∈ l -> is_Some (Resampling.index_of p l).
Proof.
  induction l as [| q l IH]; intros Hin; [inversion Hin |].
  cbn. destruct (Z.eqb_spec q p) as [-> | Hne]; [eauto |].
  apply elem_of_cons in Hin as [-> | Hin]; [congruence |].
  destruct (IH Hin) as [j ->]. cbn. eauto.
Qed.

Lemma move_to_back_perm (l : list Z) (idx : nat) (p : Z) :
  l !! idx = Some p -> (take idx l ++ drop (S idx) l) ++ [p] ≡ₚ l.
Proof.
  intros Hl. rewrite <- (take_drop_middle l idx p Hl) at 3.
  rewrite <- app_assoc. apply Permutation_app_head.
  symmetry. apply Permutation_cons_append.
Qed.

Lemma cache_inv_touch (r : Resampling) (blk : Z) (idx : nat) (p : Z) :
  cache_inv r -> Resampling.lruSrcBlocks r !! idx = Some p ->
  cache_inv (Resampling.set_cache r blk (Resampling.srcBufL r) (Resampling.srcBufR r)
               ((take idx (Resampling.lruSrcBlocks r)
                 ++ drop (S idx) (Resampling.lruSrcBlocks r)) ++ [p])).
Proof.
  intros (Hlen & Hnd & HL & HR) Hl. pose proof (move_to_back_perm _ _ _ Hl) as Hp.
  unfold cache_inv. cbn.
  split; [rewrite Hp; exact Hlen |].
  split; [rewrite Hp; exact Hnd |].
  split; [rewrite HL | rewrite HR]; apply set_eq; intros x;
    rewrite !elem_of_list_to_set; rewrite Hp; reflexivity.
Qed.

Lemma NoDup_snoc_fresh (l : list Z) (x : Z) :
  NoDup l -> x ∉ l -> NoDup (l ++ [x]).
Proof.
  intros Hnd Hx. apply NoDup_app. split; [exact Hnd |].
  split; [| apply NoDup_singleton].
  intros y Hy Hy'. apply list_elem_of_singleton in Hy'. subst y. contradiction.
Qed.

Lemma cache_inv_insert (r : Resampling) (np : Z) (bl br : list float) (r2 : Resampling) :
  cache_inv r -> Resampling.srcBufL r !! np = None ->
  Resampling.evict (Resampling.set_cache r np (<[np := bl]> (Resampling.srcBufL r))
                      (<[np := br]> (Resampling.srcBufR r)) (Resampling.lruSrcBlocks r))
  = Some r2 ->
  cache_inv (Resampling.set_cache r2 (Resampling.srcBlock r2) (Resampling.srcBufL r2)
               (Resampling.srcBufR r2)
               (Resampling.lruSrcBlocks r2 ++ [Resampling.srcBlock r2])).
Proof.
  intros (Hlen & Hnd & HL & HR) Hnone Hev.
  assert (Hfresh : np ∉ Resampling.lruSrcBlocks r).
  { intros Hin. apply not_elem_of_dom in Hnone. apply Hnone.
    rewrite HL. apply elem_of_list_to_set. exact Hin. }
  unfold Resampling.evict in Hev.
  cbn [Resampling.lruSrcBlocks Resampling.set_cache Resampling.srcBufL
       Resampling.srcBufR Resampling.srcBlock] in Hev.
  destruct (4 <=? length (Resampling.lruSrcBlocks r))%nat eqn:Hfull.
  - destruct (Resampling.lruSrcBlocks r) as [| p rest] eqn:Hlru; [discriminate |].
    simplify_eq. unfold cache_inv.
    cbn [Resampling.lruSrcBlocks Resampling.set_cache Resampling.srcBufL
         Resampling.srcBufR Resampling.srcBlock].
    apply NoDup_cons in Hnd as [Hp Hrest].
    apply not_elem_of_cons in Hfresh as [Hne Hfresh].
    split; [rewrite length_app; cbn [length] in *; lia |].
    split; [apply NoDup_snoc_fresh; assumption |].
    rewrite !dom_delete_L, !dom_insert_L, HL, HR.
    rewrite list_to_set_app_L, !list_to_set_cons, list_to_set_nil.
    split; set_solver.
  - apply Nat.leb_gt in Hfull. simplify_eq. unfold cache_inv.
    cbn [Resampling.lruSrcBlocks Resampling.set_cache Resampling.srcBufL
         Resampling.srcBufR Resampling.srcBlock].
    split; [rewrite length_app; cbn [length]; lia |].
    split; [apply NoDup_snoc_fresh; assumption |].
    rewrite !dom_insert_L, HL, HR.
    rewrite list_to_set_app_L, !list_to_set_cons, list_to_set_nil.
    split; set_solver.
Qed.

Lemma evict_None (r : Resampling) : Resampling.evict r <> None.
Proof.
  unfold Resampling.evict. intros Hev.
  destruct (4 <=? length (Resampling.lruSrcBlocks r))%nat eqn:Hfull;
    [| discriminate Hev].
  destruct (Resampling.lruSrcBlocks r) as [| p rest]; discriminate.
Qed.

(** The fields no cache operation touches. *)
Definition same_stream (r r' : Resampling) : Prop :=
  Resampling.size r' = Resampling.size r
  /\ Resampling.from r' = Resampling.from r
  /\ Resampling.to r' = Resampling.to r
  /\ Resampling.pos r' = Resampling.pos r.

Lemma same_stream_refl (r : Resampling) : same_stream r r.
Proof. repeat split. Qed.

Lemma same_stream_trans (r1 r2 r3 : Resampling) :
  same_stream r1 r2 -> same_stream r2 r3 -> same_stream r1 r3.
Proof.
  intros (? & ? & ? & ?) (? & ? & ? & ?). repeat split; congruence.
Qed.


Lemma cache_inv_set_source (r : Resampling) (s : Src) :
  cache_inv r -> cache_inv (Resampling.set_source r s).
Proof. intros Hinv. exact Hinv. Qed.

Lemma src_inv (fuel : nat) (i : Z) (r : Resampling) :
  cache_inv r ->
  cache_inv (fst (src fuel i r)) /\ same_stream r (fst (src fuel i r)).
Proof.
  intros Hinv. unfold Resampling.src.
  destruct (i <? 0); [split; [exact Hinv | apply same_stream_refl] |].
  destruct (Int.div (Resampling.size r) 4 <=? i);
    [split; [exact Hinv | apply same_stream_refl] |].
  set (np := Int.div i Resampling.resamplingBufferSize).
  destruct (Resampling.srcBufL r !! np) as [blk |] eqn:Hblk.
  - (* the block is resident *)
    cbn [Resampling.srcBlock Resampling.lruSrcBlocks Resampling.set_cache
         Resampling.srcBufL Resampling.srcBufR].
    destruct (Resampling.index_of np (Resampling.lruSrcBlocks r)) as [idx |] eqn:Hidx;
      cbn [fst].
    + split; [| repeat split].
      apply (cache_inv_touch r np idx np Hinv), index_of_lookup, Hidx.
    + split; [exact Hinv | repeat split].
  - (* the block is loaded *)
    destruct (Resampling.seek_block r np) as [s1 [e |]]; cbn [fst];
      [split; [exact Hinv | repeat split] |].
    destruct (Resampling.read_block fuel s1 []) as [s2 [buf | e | |]]; cbn [fst];
      try (split; [exact Hinv | repeat split]).
    destruct (Resampling.evict _) as [r2 |] eqn:Hev; [| destruct (evict_None _ Hev)].
    cbn [fst]. split.
    + eapply (cache_inv_insert (Resampling.set_source r s2) np);
        [exact Hinv | exact Hblk | exact Hev].
    + unfold Resampling.evict in Hev.
      cbn [Resampling.lruSrcBlocks Resampling.set_cache Resampling.srcBufL
           Resampling.srcBufR Resampling.srcBlock Resampling.set_source] in Hev.
      destruct (4 <=? length (Resampling.lruSrcBlocks r))%nat;
        [destruct (Resampling.lruSrcBlocks r); [discriminate Hev |] |];
        injection Hev as Hev; subst r2; repeat split.
Qed.

Lemma at_loop_inv (fuel : nat) (tsrc : float) (k : nat) :
  forall (n : Z) (lv rv : float) (r : Resampling),
    cache_inv r ->
    cache_inv (fst (Resampling.at_loop math_Cos cvt fuel tsrc k n lv rv r))
    /\ same_stream r (fst (Resampling.at_loop math_Cos cvt fuel tsrc k n lv rv r)).
Proof.
  induction k as [| k IH]; intros n lv rv r Hinv; cbn [Resampling.at_loop].
  - split; [exact Hinv | apply same_stream_refl].
  - destruct (src_inv fuel n r Hinv) as [Hinv1 Hsame1].
    destruct (src fuel n r) as [r1 [[srcL srcR] | e | |]]; cbn [fst] in *;
      try (split; assumption).
    destruct (Resampling.weight math_Cos cvt tsrc n) as [w |]; cbn [fst];
      [| split; assumption].
    destruct (IH (n + 1) (lv + srcL * w)%float (rv + srcR * w)%float r1 Hinv1)
      as [Hinv2 Hsame2].
    split; [exact Hinv2 | exact (same_stream_trans _ _ _ Hsame1 Hsame2)].
Qed.

Lemma at_inv (fuel : nat) (t : Z) (r : Resampling) :
  cache_inv r ->
  cache_inv (fst (at_ fuel t r)) /\ same_stream r (fst (at_ fuel t r)).
Proof.
  intros Hinv. unfold Resampling.at_.
  pose proof (at_loop_inv fuel (Resampling.tInSrc r t)
                (Z.to_nat (Resampling.endN cvt r t - Resampling.startN cvt r t + 1))
                (Resampling.startN cvt r t) 0%float 0%float r Hinv) as Hl.
  destruct (Resampling.at_loop _ _ _ _ _ _ _ _ _) as [r1 [[lv rv] | e | |]];
    exact Hl.
Qed.

Lemma read_loop_inv (fuel : nat) (k : nat) :
  forall (i : nat) (b : list byte) (r : Resampling),
    cache_inv r ->
    cache_inv (fst (Resampling.read_loop math_Cos cvt fuel k i b r))
    /\ same_stream r (fst (Resampling.read_loop math_Cos cvt fuel k i b r)).
Proof.
  induction k as [| k IH]; intros i b r Hinv; cbn [Resampling.read_loop].
  - split; [exact Hinv | apply same_stream_refl].
  - destruct (at_inv fuel (Int.int64 (Int.div (Resampling.pos r) 4 + Z.of_nat i)) r Hinv)
      as [Hinv1 Hsame1].
    destruct (at_ fuel _ r) as [r1 [[l r_] | e | |]]; cbn [fst] in *;
      try (split; assumption).
    destruct (store4 b i _ _ _ _) as [b' |]; cbn [fst]; [| split; assumption].
    destruct (IH (S i) b' r1 Hinv1) as [Hinv2 Hsame2].
    split; [exact Hinv2 | exact (same_stream_trans _ _ _ Hsame1 Hsame2)].
Qed.

Lemma Read_cache_inv (fuel : nat) (b : list byte) (r : Resampling) :
  cache_inv r -> cache_inv (fst (Read fuel b r)).
Proof.
  intros Hinv. unfold Resampling.Read.
  destruct (Resampling.pos r =? Resampling.Length cvt r); [exact Hinv |].
  match goal with
  | |- context [Resampling.read_loop math_Cos cvt fuel ?k 0 b r] =>
      pose proof (read_loop_inv fuel k 0%nat b r Hinv) as [Hl _];
      destruct (Resampling.read_loop math_Cos cvt fuel k 0 b r)
        as [r1 [b' [u | e | |]]]
  end; exact Hl.
Qed.

Lemma Seek_cache_inv (offset whence : Z) (r : Resampling) :
  cache_inv r -> cache_inv (fst (Seek offset whence r)).
Proof. intros Hinv. exact Hinv. Qed.

Lemma NewResampling_cache_inv (s : Src) (size from to : Z) :
  cache_inv (Resampling.NewResampling s size from to).
Proof.
  unfold cache_inv. cbn. split; [lia |]. split; [apply NoDup_nil_2 |].
  rewrite dom_empty_L. split; reflexivity.
Qed.

(** The cache invariant does not depend on the outcome; the stream
    parameters are kept whatever the cache held. *)
Lemma src_same_stream (fuel : nat) (i : Z) (r : Resampling) :
  same_stream r (fst (src fuel i r)).
Proof.
  unfold Resampling.src.
  destruct (i <? 0); [apply same_stream_refl |].
  destruct (Int.div (Resampling.size r) 4 <=? i); [apply same_stream_refl |].
  set (np := Int.div i Resampling.resamplingBufferSize).
  destruct (Resampling.srcBufL r !! np) as [blk |].
  - cbn [Resampling.srcBlock Resampling.lruSrcBlocks Resampling.set_cache
         Resampling.srcBufL Resampling.srcBufR].
    destruct (Resampling.index_of np (Resampling.lruSrcBlocks r)); repeat split.
  - destruct (Resampling.seek_block r np) as [s1 [e |]]; [repeat split |].
    destruct (Resampling.read_block fuel s1 []) as [s2 [buf | e | |]];
      try solve [repeat split].
    destruct (Resampling.evict _) as [r2 |] eqn:Hev; [| destruct (evict_None _ Hev)].
    unfold Resampling.evict in Hev.
    cbn [Resampling.lruSrcBlocks Resampling.set_cache Resampling.srcBufL
         Resampling.srcBufR Resampling.srcBlock Resampling.set_source] in Hev.
    destruct (4 <=? length (Resampling.lruSrcBlocks r))%nat;
      [destruct (Resampling.lruSrcBlocks r); [discriminate Hev |] |];
      injection Hev as Hev; subst r2; repeat split.
Qed.

Lemma at_loop_same_stream (fuel : nat) (tsrc : float) (k : nat) :
  forall (n : Z) (lv rv : float) (r : Resampling),
    same_stream r (fst (Resampling.at_loop math_Cos cvt fuel tsrc k n lv rv r)).
Proof.
  induction k as [| k IH]; intros n lv rv r; cbn [Resampling.at_loop].
  - apply same_stream_refl.
  - pose proof (src_same_stream fuel n r) as Hsame1.
    destruct (src fuel n r) as [r1 [[srcL srcR] | e | |]]; cbn [fst] in *;
      try assumption.
    destruct (Resampling.weight math_Cos cvt tsrc n) as [w |]; cbn [fst];
      [| assumption].
    exact (same_stream_trans _ _ _ Hsame1 (IH _ _ _ r1)).
Qed.

Lemma at_same_stream (fuel : nat) (t : Z) (r : Resampling) :
  same_stream r (fst (at_ fuel t r)).
Proof.
  unfold Resampling.at_.
  pose proof (at_loop_same_stream fuel (Resampling.tInSrc r t)
                (Z.to_nat (Resampling.endN cvt r t - Resampling.startN cvt r t + 1))
                (Resampling.startN cvt r t) 0%float 0%float r) as Hl.
  destruct (Resampling.at_loop _ _ _ _ _ _ _ _ _) as [r1 [[lv rv] | e | |]];
    exact Hl.
Qed.

Lemma read_loop_same_stream (fuel : nat) (k : nat) :
  forall (i : nat) (b : list byte) (r : Resampling),
    same_stream r (fst (Resampling.read_loop math_Cos cvt fuel k i b r)).
Proof.
  induction k as [| k IH]; intros i b r; cbn [Resampling.read_loop].
  - apply same_stream_refl.
  - pose proof (at_same_stream fuel
                  (Int.int64 (Int.div (Resampling.pos r) 4 + Z.of_nat i)) r) as Hsame1.
    destruct (at_ fuel _ r) as [r1 [[l r_] | e | |]]; cbn [fst] in *;
      try assumption.
    destruct (store4 b i _ _ _ _) as [b' |]; cbn [fst]; [| assumption].
    exact (same_stream_trans _ _ _ Hsame1 (IH _ _ r1)).
Qed.

(** Calls on a stream, in any order: [src] (as [at] issues it), [Read] and
    [Seek]. *)
Inductive op : Type :=
| OpSrc (i : Z)
| OpRead (b : list byte)
| OpSeek (offset whence : Z).

(** The state one call leaves, whatever its outcome. *)
Definition step (fuel : nat) (r : Resampling) (o : op) : Resampling :=
  match o with
  | OpSrc i => fst (src fuel i r)
  | OpRead b => fst (Read fuel b r)
  | OpSeek offset whence => fst (Seek offset whence r)
  end.

Definition run (fuel : nat) (ops : list op) (r : Resampling) : Resampling :=
  fold_left (step fuel) ops r.

Lemma step_cache_inv (fuel : nat) (r : Resampling) (o : op) :
  cache_inv r -> cache_inv (step fuel r o).
Proof.
  intros Hinv. destruct o as [i | b | offset whence]; cbn [step].
  - apply src_inv, Hinv.
  - apply Read_cache_inv, Hinv.
  - apply Seek_cache_inv, Hinv.
Qed.

Lemma run_cache_inv (fuel : nat) (ops : list op) :
  forall r : Resampling, cache_inv r -> cache_inv (run fuel ops r).
Proof.
  induction ops as [| o ops IH]; intros r Hinv; [exact Hinv |].
  cbn [run fold_left]. apply IH, step_cache_inv, Hinv.
Qed.

Lemma cache_inv_size (r : Resampling) :
  cache_inv r ->
  (size (Resampling.srcBufL r) <= 4)%nat /\ (size (Resampling.srcBufR r) <= 4)%nat.
Proof.
  intros (Hlen & Hnd & HL & HR).
  rewrite <- !size_dom, HL, HR.
  rewrite size_list_to_set by exact Hnd. split; exact Hlen.
Qed.

(** C5.  Whatever calls were made on a stream since [NewResampling], with
    whatever outcome (so in particular after any sequence of successful [src],
    [Read] and [Seek] calls, the list being arbitrary it holds after each of
    them): at most four blocks are resident in either sample map, the LRU list
    has at most four entries and no block index twice, and the blocks in the
    list are exactly the keys of both maps. *)
Theorem cache_bounded_and_consistent (fuel : nat) (s : Src) (size_ from_ to_ : Z)
    (ops : list op) :
  let r := run fuel ops (Resampling.NewResampling s size_ from_ to_) in
  (size (Resampling.srcBufL r) <= 4)%nat
  /\ (size (Resampling.srcBufR r) <= 4)%nat
  /\ (length (Resampling.lruSrcBlocks r) <= 4)%nat
  /\ NoDup (Resampling.lruSrcBlocks r)
  /\ dom (Resampling.srcBufL r) = list_to_set (Resampling.lruSrcBlocks r)
  /\ dom (Resampling.srcBufR r) = list_to_set (Resampling.lruSrcBlocks r).
Proof.
  intros r.
  assert (Hinv : cache_inv r)
    by (apply run_cache_inv, NewResampling_cache_inv).
  destruct (cache_inv_size r Hinv) as [HsL HsR].
  destruct Hinv as (Hlen & Hnd & HL & HR).
  repeat split; assumption.
Qed.

(** *** A failed block load *)




Lemma decode_block_length (ch : nat) (buf : list byte) :
  length (Resampling.decode_block ch buf) = Z.to_nat Resampling.resamplingBufferSize.
Proof. unfold Resampling.decode_block. rewrite length_map, length_seq. reflexivity. Qed.



(** *** The length and the cursor *)

Lemma Length_range (r : Resampling) :
  - 2 ^ 63 <= Resampling.Length cvt r < 2 ^ 63.
Proof. unfold Resampling.Length. apply int64_range. Qed.

Lemma Length_multiple_of_4 (r : Resampling) : (4 | Resampling.Length cvt r).
Proof.
  unfold Resampling.Length.
  destruct (quot4_mul4 _ (to_int_range cvt
              (F64.of_int (Resampling.size r) * F64.of_int (Resampling.to r)
               / F64.of_int (Resampling.from r))%float)) as (-> & Hdiv & _).
  exact Hdiv.
Qed.

(** C7, as the code has it.  For a source size that is not negative and
    positive rates, and as long as the scaled size
    [float64(size) * float64(to) / float64(from)] stays below [2^63] (so that
    [int64] holds it), [Length] is not negative and is a multiple of 4. *)
Theorem Length_nonneg_multiple_of_4 (r : Resampling) :
  0 <= Resampling.size r -> 0 < Resampling.from r -> 0 < Resampling.to r ->
  (F64.of_int (Resampling.size r) * F64.of_int (Resampling.to r)
   / F64.of_int (Resampling.from r) <? 0x1p63)%float = true ->
  0 <= Resampling.Length cvt r /\ (4 | Resampling.Length cvt r).
Proof.
  intros Hsize Hfrom Hto Hlt. split; [| apply Length_multiple_of_4].
  unfold Resampling.Length.
  set (q := (F64.of_int (Resampling.size r) * F64.of_int (Resampling.to r)
             / F64.of_int (Resampling.from r))%float) in *.
  assert (Hsign : sf_sign_is false (Prim2SF q)).
  { subst q. rewrite div_spec, FloatAxioms.mul_spec.
    apply SFdiv_nonneg; [apply SFmul_nonneg |]; apply of_int_nonneg; lia. }
  destruct (trunc_below_2p63 q Hsign Hlt) as [v [Hv Hrange]].
  rewrite (to_int_trunc cvt q v Hv) by lia.
  destruct (quot4_mul4 v ltac:(lia)) as (-> & _ & Hnn). lia.
Qed.








End Cache.

(** * The normaliser *)

Lemma byte_val_range (x : byte) : 0 <= byte_val x < 256.
Proof.
  unfold byte_val. pose proof (Byte.to_N_bounded x) as Hb. lia.
Qed.

Lemma store_spec (b : list byte) (k : nat) (v : byte) :
  (k < length b)%nat ->
  store b k v = Some (<[k := v]> b).
Proof.
  intros Hk. unfold store. apply Nat.ltb_lt in Hk. rewrite Hk. reflexivity.
Qed.

(** The four bytes of frame [i]. *)
Definition frame_is (b : list byte) (i : nat) (v0 v1 v2 v3 : byte) : Prop :=
  b !! (4 * i)%nat = Some v0 /\ b !! (4 * i + 1)%nat = Some v1
  /\ b !! (4 * i + 2)%nat = Some v2 /\ b !! (4 * i + 3)%nat = Some v3.

Lemma store4_spec (b : list byte) (i : nat) (v0 v1 v2 v3 : byte) :
  (4 * i + 3 < length b)%nat ->
  exists b' : list byte,
    store4 b i v0 v1 v2 v3 = Some b'
    /\ length b' = length b
    /\ frame_is b' i v0 v1 v2 v3
    /\ forall k : nat, (k < 4 * i \/ 4 * i + 4 <= k)%nat -> b' !! k = b !! k.
Proof.
  intros Hi. unfold store4.
  rewrite store_spec by lia. cbn [mbind option_bind].
  rewrite store_spec by (rewrite length_insert; lia). cbn [mbind option_bind].
  rewrite store_spec by (rewrite !length_insert; lia). cbn [mbind option_bind].
  rewrite store_spec by (rewrite !length_insert; lia).
  eexists. split; [reflexivity |].
  split; [rewrite !length_insert; reflexivity |].
  split.
  - unfold frame_is. repeat split.
    + rewrite !list_lookup_insert_ne by lia.
      apply list_lookup_insert_eq. lia.
    + rewrite !list_lookup_insert_ne by lia.
      apply list_lookup_insert_eq. rewrite length_insert. lia.
    + rewrite list_lookup_insert_ne by lia.
      apply list_lookup_insert_eq. rewrite !length_insert. lia.
    + apply list_lookup_insert_eq. rewrite !length_insert. lia.
  - intros k Hk. rewrite !list_lookup_insert_ne by lia. reflexivity.
Qed.

(** A loop whose iteration [j] stores the frame [f j]. *)
Lemma for_loop_frames (body : nat -> list byte -> option (list byte))
    (f : nat -> byte * byte * byte * byte) (n : nat) :
  (forall (j : nat) (b : list byte),
      (j < n)%nat -> (4 * j + 3 < length b)%nat ->
      body j b = store4 b j (f j).1.1.1 (f j).1.1.2 (f j).1.2 (f j).2) ->
  forall (k i : nat) (b : list byte),
    (i + k <= n)%nat -> (4 * (i + k) <= length b)%nat ->
    exists b' : list byte,
      for_loop body i k b = Some b'
      /\ length b' = length b
      /\ (forall j : nat, (i <= j < i + k)%nat ->
            frame_is b' j (f j).1.1.1 (f j).1.1.2 (f j).1.2 (f j).2)
      /\ forall idx : nat, (idx < 4 * i \/ 4 * (i + k) <= idx)%nat -> b' !! idx = b !! idx.
Proof.
  intros Hbody. induction k as [| k IH]; intros i b Hn Hlen; cbn [for_loop].
  - exists b. split; [reflexivity |]. split; [reflexivity |].
    split; [intros j Hj; lia | reflexivity].
  - rewrite Hbody by lia.
    destruct (store4_spec b i (f i).1.1.1 (f i).1.1.2 (f i).1.2 (f i).2)
      as (b1 & -> & Hlen1 & Hfr1 & Hout1); [lia |].
    destruct (IH (S i) b1) as (b' & Hloop & Hlen' & Hfr' & Hout'); [lia | lia |].
    exists b'. split; [exact Hloop |]. split; [congruence |].
    split.
    + intros j Hj. destruct (Nat.eq_dec j i) as [-> | Hne].
      * destruct Hfr1 as (H0 & H1 & H2 & H3).
        unfold frame_is. rewrite !Hout' by lia. repeat split; assumption.
      * apply Hfr'. lia.
    + intros idx Hidx. rewrite Hout' by lia. apply Hout1. lia.
Qed.

Lemma expand8_val (x : byte) : Stereo16.expand8 x = byte_val x * 257 - 32768.
Proof.
  unfold Stereo16.expand8, Int.int16. pose proof (byte_val_range x).
  apply wrap_id; [lia |]. change (2 ^ (16 - 1)) with 32768. lia.
Qed.

(** The two bytes [Read] stores for an expanded sample decode to it. *)
Lemma expand8_bytes (x : byte) :
  sample16 (to_byte (Stereo16.expand8 x)) (to_byte (Z.shiftr (Stereo16.expand8 x) 8))
  = Stereo16.expand8 x.
Proof. destruct x; vm_compute; reflexivity. Qed.

Section Normaliser.

Context {Src : Type} `{ReadSeekCloser Src}.

Abbreviation Stereo16 := (Stereo16.Stereo16 Src).

(** C2, as the code has it.  A mono 8-bit normaliser whose source hands
    over [buf] (no more than was asked for, with no error or with [io.EOF])
    returns four bytes per source byte: for the source byte [x] at index [i],
    frame [i] of the output holds the sample [x * 257 - 32768] in little-endian
    order on the left channel and again on the right channel.  For the
    mid-scale byte 128 that sample is 128 ([128 * 257 = 32896]), not 0. *)
Theorem mono8_expands_each_byte (s : Stereo16) (b : list byte)
    (src' : Src) (buf : list byte) (err : option error) :
  Stereo16.mono s = true -> Stereo16.eight s = true ->
  Z.of_nat (length b) < 2 ^ 63 ->
  rsc_Read (Stereo16.source s) (length b / 2 / 2) = (src', (buf, err)) ->
  (length buf <= length b / 2 / 2)%nat ->
  (forall c : nat, err <> Some (IOError c)) ->
  exists b' : list byte,
    Stereo16.Read s b
    = (Stereo16.NewStereo16 src' true true,
       Some (b', (4 * Z.of_nat (length buf), err)))
    /\ length b' = length b
    /\ forall (i : nat) (x : byte),
        buf !! i = Some x ->
        let v := byte_val x * 257 - 32768 in
        frame_is b' i (to_byte v) (to_byte (Z.shiftr v 8))
                      (to_byte v) (to_byte (Z.shiftr v 8))
        /\ sample16 (to_byte v) (to_byte (Z.shiftr v 8)) = v
        /\ (byte_val x = 128 -> v = 128).
Proof.
  intros Hmono Height Hb Hread Hlen Herr.
  assert (Hdiv : (4 * (length b / 2 / 2) <= length b)%nat).
  { rewrite Nat.Div0.div_div. pose proof (Nat.Div0.mul_div_le (length b) (2 * 2)). lia. }
  set (f := fun j : nat =>
              let v := Stereo16.expand8 (nth j buf Byte.x00) in
              (to_byte v, to_byte (Z.shiftr v 8), to_byte v, to_byte (Z.shiftr v 8))).
  destruct (for_loop_frames (Stereo16.body_mono_eight buf) f (length buf))
    with (k := length buf) (i := 0%nat) (b := b)
    as (b' & Hloop & Hlen' & Hfr & _); [| lia | lia |].
  { intros j b0 Hj Hb0. unfold Stereo16.body_mono_eight.
    destruct (nth_lookup_or_length buf j Byte.x00) as [Hnth | Hge]; [| lia].
    rewrite Hnth. reflexivity. }
  exists b'. split; [| split; [exact Hlen' |]].
  - unfold Stereo16.Read. rewrite Hmono, Height, Hread.
    assert (Hn : Int.int64 (Int.int64 (Z.of_nat (length buf) * 2) * 2)
                 = 4 * Z.of_nat (length buf)).
    { rewrite (int64_id (Z.of_nat (length buf) * 2)) by lia.
      rewrite int64_id by lia. lia. }
    destruct err as [[| c] |]; [| destruct (Herr c eq_refl) |];
      rewrite Hloop, Hn; reflexivity.
  - intros i x Hx v.
    assert (Hi : (i < length buf)%nat) by (apply lookup_lt_Some in Hx; exact Hx).
    pose proof (Hfr i ltac:(lia)) as Hframe.
    assert (Hnth : nth i buf Byte.x00 = x) by (apply nth_lookup_Some with (d := Byte.x00) in Hx; exact Hx).
    subst f. cbv beta zeta in Hframe. cbn [fst snd] in Hframe.
    rewrite Hnth, expand8_val in Hframe. fold v in Hframe.
    split; [exact Hframe |].
    split; [| intros Hx128; subst v; lia].
    pose proof (expand8_bytes x) as Hrt. rewrite expand8_val in Hrt. exact Hrt.
Qed.

End Normaliser.

(** * The fast cosine *)

Lemma SFcompare_opp (a b : spec_float) :
  SFcompare (SFopp a) (SFopp b) = SFcompare b a.
Proof.
  destruct a as [sa | sa | | sa ma ea], b as [sb | sb | | sb mb eb];
    try reflexivity;
    try (destruct sa; reflexivity);
    try (destruct sb; reflexivity);
    try (destruct sa, sb; reflexivity).
  destruct sa, sb; cbn [SFopp negb SFcompare]; try reflexivity.
  - rewrite (Z.compare_antisym ea eb).
    destruct (ea ?= eb); cbn [CompOpp]; try reflexivity.
    rewrite (Pos.compare_cont_antisym mb ma Eq). reflexivity.
  - rewrite (Z.compare_antisym ea eb).
    destruct (ea ?= eb); cbn [CompOpp]; try reflexivity.
    rewrite (Pos.compare_cont_antisym ma mb Eq). reflexivity.
Qed.

Lemma leb_opp (a b : float) : (- a <=? - b)%float = (b <=? a)%float.
Proof. rewrite !leb_spec, !opp_spec. unfold SFleb. rewrite SFcompare_opp. reflexivity. Qed.

(** The value the code's [if x < 0 { x = -x }] leaves. *)
Lemma Prim2SF_fold_neg (x : float) :
  Prim2SF (if (x <? 0)%float then (- x)%float else x)
  = match Prim2SF x with
    | S754_zero s => S754_zero s
    | y => SFabs y
    end.
Proof.
  rewrite ltb_spec. change (Prim2SF 0) with (S754_zero false).
  destruct (Prim2SF x) as [s | s | | s m e] eqn:Hx; cbn [SFltb SFcompare SFabs].
  - exact Hx.
  - destruct s; [rewrite opp_spec, Hx | rewrite Hx]; reflexivity.
  - exact Hx.
  - destruct s; [rewrite opp_spec, Hx | rewrite Hx]; reflexivity.
Qed.

Lemma of_int_one : F64.of_int 1 = 1%float.
Proof. reflexivity. Qed.

Lemma of_int_minus_one : F64.of_int (-1) = (-1)%float.
Proof. reflexivity. Qed.

Lemma quadrant_range (i : Z) :
  0 <= i <= 262144 ->
  0 <= fst (quadrant i) <= 65536 /\ (snd (quadrant i) = 1 \/ snd (quadrant i) = -1).
Proof.
  intros Hi. unfold quadrant, len_cosTable.
  destruct (Z.ltb_spec i 65536); [cbn; lia |].
  destruct (Z.ltb_spec i (65536 * 2)); [cbn; lia |].
  destruct (Z.ltb_spec i (65536 * 3)); cbn; lia.
Qed.

Section TrigFacts.

Variable math_Cos : float -> float.
Variable cvt : Z -> float -> Z.

Abbreviation fastCos := (fastCos01 math_Cos cvt).
Abbreviation table := (cosTable math_Cos).

Lemma to_int_zero (f : float) (s : bool) :
  Prim2SF f = S754_zero s -> F64.to_int cvt 64 f = 0.
Proof.
  intros Hf. apply to_int_trunc; [| lia]. unfold F64.trunc. rewrite Hf. reflexivity.
Qed.

Lemma Prim2SF_262144 : Prim2SF 262144 = S754_finite false 4503599627370496 (-34).
Proof. reflexivity. Qed.

Lemma Prim2SF_2p40 : Prim2SF 0x1p40 = S754_finite false 4503599627370496 (-12).
Proof. reflexivity. Qed.

(** Below [2^40] the scaled phase fits [int64], so the phase is a step count
    within one period. *)
Lemma phase_range (x : float) :
  (abs x <=? 0x1p40)%float = true -> 0 <= phase cvt x <= 262144.
Proof.
  intros Hle. unfold phase, period_fold, len_cosTable.
  set (x' := if (x <? 0)%float then (- x)%float else x).
  pose proof (Prim2SF_fold_neg x) as Hx'. fold x' in Hx'.
  rewrite leb_spec, abs_spec, Prim2SF_2p40 in Hle.
  assert (Hv : 0 <= F64.to_int cvt 64 (262144 * x')%float < 2 ^ 63).
  { pose proof (Prim2SF_valid x') as Hvalid.
    pose proof (Prim2SF_valid (262144 * x')%float) as Hvalid2.
    destruct (Prim2SF x) as [s | s | | s m e]; cbn [SFabs] in *; try discriminate Hle.
    - rewrite (to_int_zero (262144 * x')%float s); [lia |].
      rewrite FloatAxioms.mul_spec, Prim2SF_262144, Hx'. reflexivity.
    - rewrite Hx' in Hvalid.
      pose proof (valid_finite _ _ _ Hvalid) as [Hcan Hemax].
      rewrite fexp_eq in Hcan.
      assert (He : e <= -12).
      { unfold SFleb, SFcompare in Hle.
        destruct (Z.compare_spec e (-12)); [lia | lia | discriminate Hle]. }
      destruct (SFmul_pow2 18 false m e) as [m' [Hm' Hr]];
        [lia | exact Hvalid | rewrite fexp_eq; lia |].
      change (18 - 52) with (-34) in Hr.
      rewrite FloatAxioms.mul_spec, Prim2SF_262144, Hx', Hr in Hvalid2.
      pose proof (valid_mantissa_bound _ _ _ Hvalid2) as Hm'b.
      rewrite (to_int_trunc cvt (262144 * x')%float
                 (Z.shiftl (Zpos m') (fexp prec emax (Zpos (digits2_pos m) + (e + 18))))).
      + change 63 with (53 + 10). apply shiftl_bound; try lia. rewrite fexp_eq. lia.
      + unfold F64.trunc.
        rewrite FloatAxioms.mul_spec, Prim2SF_262144, Hx', Hr. reflexivity.
      + assert (0 <= Z.shiftl (Zpos m') (fexp prec emax (Zpos (digits2_pos m) + (e + 18)))
                < 2 ^ (53 + 10))
          by (apply shiftl_bound; try lia; rewrite fexp_eq; lia).
        change (53 + 10) with 63 in *. lia. }
  change (4 * 65536) with 262144.
  destruct (Z.ltb_spec 262144 (F64.to_int cvt 64 (262144 * x')%float)); [| lia].
  unfold Int.rem.
  pose proof (Z.rem_bound_pos (F64.to_int cvt 64 (262144 * x')%float) 262144). lia.
Qed.

Lemma phase_neg (x : float) : phase cvt (- x) = phase cvt x.
Proof.
  unfold phase.
  set (a := if (- x <? 0)%float then (- - x)%float else (- x)%float).
  set (b := if (x <? 0)%float then (- x)%float else x).
  pose proof (Prim2SF_fold_neg (- x)) as Ha. fold a in Ha.
  pose proof (Prim2SF_fold_neg x) as Hb. fold b in Hb.
  rewrite opp_spec in Ha.
  destruct (Prim2SF x) as [s | s | | s m e]; cbn [SFopp SFabs] in Ha, Hb.
  - rewrite (to_int_zero (262144 * a)%float (negb s)),
            (to_int_zero (262144 * b)%float s); [reflexivity | |];
      rewrite FloatAxioms.mul_spec, Prim2SF_262144, ?Ha, ?Hb; reflexivity.
  - rewrite (Prim2SF_inj a b) by congruence. reflexivity.
  - rewrite (Prim2SF_inj a b) by congruence. reflexivity.
  - rewrite (Prim2SF_inj a b) by congruence. reflexivity.
Qed.

Lemma fastCos01_phase (x y : float) :
  phase cvt x = phase cvt y -> fastCos x = fastCos y.
Proof. intros Hp. unfold fastCos01. rewrite Hp. reflexivity. Qed.

(** C9.  [fastCos01] is even; with a table whose first entry is
    [math.Cos(0) = 1] it returns 1, 0, -1, 0, 1 at 0, 1/4, 1/2, 3/4 and 1
    period; and whenever the folded index is the table's length it returns 0
    without reading the table. *)
Theorem fastCos01_even_exact_at_quadrants :
  math_Cos 0 = 1%float ->
  (forall x : float, fastCos (- x) = fastCos x)
  /\ fastCos 0 = Some 1%float
  /\ fastCos 0.25 = Some 0%float
  /\ fastCos 0.5 = Some (-1)%float
  /\ fastCos 0.75 = Some 0%float
  /\ fastCos 1 = Some 1%float
  /\ (forall x : float,
         fst (quadrant (phase cvt x)) = len_cosTable -> fastCos x = Some 0%float).
Proof.
  intros Hcos0.
  assert (Htable0 : table 0 = 1%float) by exact Hcos0.
  assert (Hat0 : cosTable_at math_Cos 0 = Some 1%float)
    by (unfold cosTable_at; cbn; rewrite Htable0; reflexivity).
  split; [intros x; apply fastCos01_phase, phase_neg |].
  assert (Hp0 : phase cvt 0 = 0) by reflexivity.
  assert (Hp1 : phase cvt 0.25 = 65536) by reflexivity.
  assert (Hp2 : phase cvt 0.5 = 131072) by reflexivity.
  assert (Hp3 : phase cvt 0.75 = 196608) by reflexivity.
  assert (Hp4 : phase cvt 1 = 262144) by reflexivity.
  unfold fastCos01. rewrite Hp0, Hp1, Hp2, Hp3, Hp4.
  change (quadrant 0) with (0, 1).
  change (quadrant 65536) with (65536, -1).
  change (quadrant 131072) with (0, -1).
  change (quadrant 196608) with (65536, 1).
  change (quadrant 262144) with (0, 1).
  cbv beta iota.
  change (0 =? len_cosTable) with false.
  change (65536 =? len_cosTable) with true.
  cbv beta iota. rewrite Hat0, of_int_one, of_int_minus_one.
  repeat split.
  intros x Hx. destruct (quadrant (phase cvt x)) as [j sg]. cbn [fst] in Hx.
  subst j. reflexivity.
Qed.

(** C10.  For an argument of magnitude at most [2^40], with table entries
    in [[-1, 1]]: [fastCos01] returns a value (it does not panic), the folded
    index is in [[0, 65536]] and is in [[0, 65535]] whenever the table is read,
    and the value is in [[-1, 1]]. *)
Theorem fastCos01_in_bounds (x : float) :
  (forall i : Z, 0 <= i < len_cosTable ->
     (-1 <=? table i)%float = true /\ (table i <=? 1)%float = true) ->
  (abs x <=? 0x1p40)%float = true ->
  let j := fst (quadrant (phase cvt x)) in
  0 <= j <= len_cosTable
  /\ (j <> len_cosTable -> 0 <= j <= 65535 /\ cosTable_at math_Cos j = Some (table j))
  /\ exists v : float,
      fastCos x = Some v /\ (-1 <=? v)%float = true /\ (v <=? 1)%float = true.
Proof.
  intros Htable Hx j.
  pose proof (quadrant_range (phase cvt x) (phase_range x Hx)) as [Hj Hsg].
  fold j in Hj. unfold len_cosTable in *.
  assert (Hat : j <> 65536 -> 0 <= j <= 65535 /\ cosTable_at math_Cos j = Some (table j)).
  { intros Hne. split; [lia |]. unfold cosTable_at, len_cosTable.
    destruct (Z.leb_spec 0 j); [| lia]. destruct (Z.ltb_spec j 65536); [reflexivity | lia]. }
  split; [exact Hj |]. split; [exact Hat |].
  unfold fastCos01, len_cosTable. subst j.
  destruct (quadrant (phase cvt x)) as [j sg]. cbn [fst snd] in *.
  destruct (Z.eqb_spec j 65536) as [Heq | Hne].
  - exists 0%float. repeat split.
  - destruct (Hat Hne) as [Hrange ->].
    destruct (Htable j ltac:(unfold len_cosTable; lia)) as [Hlo Hhi].
    destruct Hsg as [-> | ->].
    + exists (table j). rewrite of_int_one, mul_one_l. repeat split; assumption.
    + exists (- table j)%float. rewrite of_int_minus_one, mul_minus_one_l.
      split; [reflexivity |]. split.
      * change (-1)%float with (PrimFloat.opp 1). rewrite leb_opp. exact Hhi.
      * change 1%float with (PrimFloat.opp (-1)) at 1.
        rewrite leb_opp. exact Hlo.
Qed.

End TrigFacts.

(** * The interpolation window *)

Section Window.

Context {Src : Type} `{ReadSeekCloser Src}.
Variable math_Cos : float -> float.
Variable cvt : Z -> float -> Z.

Abbreviation Stream := (Resampling.Resampling Src).

(** One turn of the loop of [at], on the outcome so far. *)
Definition frame_step (fuel : nat) (tsrc : float)
    (acc : Stream * result (float * float)) (n : Z)
    : Stream * result (float * float) :=
  match acc with
  | (r, Ok (lv, rv)) =>
      match Resampling.src fuel n r with
      | (r1, Ok (srcL, srcR)) =>
          match Resampling.weight math_Cos cvt tsrc n with
          | Some s => (r1, Ok (lv + srcL * s, rv + srcR * s)%float)
          | None => (r1, Panic)
          end
      | (r1, Err e) => (r1, Err e)
      | (r1, Panic) => (r1, Panic)
      | (r1, Diverge) => (r1, Diverge)
      end
  | stopped => stopped
  end.

Lemma frame_step_stopped (fuel : nat) (tsrc : float) (l : list Z)
    (r : Stream) (o : result (float * float)) :
  (forall v, o <> Ok v) ->
  fold_left (frame_step fuel tsrc) l (r, o) = (r, o).
Proof.
  intros Ho. induction l as [| n l IH]; [reflexivity |].
  cbn [fold_left]. destruct o as [v | e | |]; [destruct (Ho v eq_refl) | | |];
    exact IH.
Qed.

(** The loop of [at] visits the frames [n, n+1, ..., n+k-1], in this order. *)
Lemma at_loop_fold (fuel : nat) (tsrc : float) (k : nat) :
  forall (n : Z) (lv rv : float) (r : Stream),
    Resampling.at_loop math_Cos cvt fuel tsrc k n lv rv r
    = fold_left (frame_step fuel tsrc) (seqZ n (Z.of_nat k)) (r, Ok (lv, rv)).
Proof.
  induction k as [| k IH]; intros n lv rv r; [reflexivity |].
  rewrite seqZ_cons by lia.
  replace (Z.pred (Z.of_nat (S k))) with (Z.of_nat k) by lia.
  cbn [Resampling.at_loop fold_left frame_step].
  destruct (Resampling.src fuel n r) as [r1 [[srcL srcR] | e | |]];
    try (rewrite frame_step_stopped by discriminate; reflexivity).
  destruct (Resampling.weight math_Cos cvt tsrc n) as [s |];
    [| rewrite frame_step_stopped by discriminate; reflexivity].
  apply IH.
Qed.

(** The window of the design document, in its words: from
    [floor(tSrc - 8)] to [ceil(tSrc + 8)] for [tSrc = t * from / to], both
    ends brought into [[0, frames - 1]]. *)
Definition claimed_window (r : Stream) (t : Z) : Z * Z :=
  let frames := Resampling.size r / 4 in
  let lo := t * Resampling.from r / Resampling.to r - 8 in
  let hi := - (- (t * Resampling.from r) / Resampling.to r) + 8 in
  (Z.max 0 (Z.min lo (frames - 1)), Z.max 0 (Z.min hi (frames - 1))).

(** C3, as the code has it.  For a stream of [frames = size / 4] frames and
    an output frame [t] for which [tSrc - 8] and [tSrc + 8] are finite and fit
    [int64]: with [a] and [b] their integer parts (rounded towards zero, which
    for [tSrc + 8 > 0] is the floor, not the ceiling), [at] visits exactly the
    frames from [min (max a 0) (frames - 1)] to [min b (frames - 1)], in
    increasing order. *)
Theorem window_is_truncated (fuel : nat) (r : Stream) (t a b : Z) :
  0 <= Resampling.size r < 2 ^ 63 ->
  F64.trunc (Resampling.tInSrc r t - 8)%float = Some a -> - 2 ^ 63 <= a < 2 ^ 63 ->
  F64.trunc (Resampling.tInSrc r t + 8)%float = Some b -> - 2 ^ 63 <= b < 2 ^ 63 ->
  let frames := Int.div (Resampling.size r) 4 in
  let first := Z.min (Z.max a 0) (frames - 1) in
  let last := Z.min b (frames - 1) in
  Resampling.startN cvt r t = first
  /\ Resampling.endN cvt r t = last
  /\ Resampling.at_ math_Cos cvt fuel t r
     = match fold_left (frame_step fuel (Resampling.tInSrc r t))
               (seqZ first (last - first + 1)) (r, Ok (0, 0)%float) with
       | (r1, Ok (lv, rv)) => (r1, Ok (Resampling.clamp1 lv, Resampling.clamp1 rv))
       | other => other
       end.
Proof.
  intros Hsize Ha Har Hb Hbr frames first last.
  assert (Hframes : 0 <= frames < 2 ^ 63).
  { subst frames. unfold Int.div. split; [apply Z.quot_pos; lia |].
    assert (Z.quot (Resampling.size r) 4 <= Resampling.size r)
      by (apply Z.quot_le_upper_bound; lia).
    lia. }
  assert (Hstart : Resampling.startN cvt r t = first).
  { unfold Resampling.startN, Resampling.windowSize.
    rewrite (to_int_trunc cvt _ a Ha Har). fold frames.
    rewrite (int64_id (frames - 1)) by lia. subst first.
    destruct (Z.ltb_spec a 0);
      [destruct (Z.leb_spec frames 0) | destruct (Z.leb_spec frames a)]; lia. }
  assert (Hend : Resampling.endN cvt r t = last).
  { unfold Resampling.endN, Resampling.windowSize.
    rewrite (to_int_trunc cvt _ b Hb Hbr). fold frames.
    rewrite (int64_id (frames - 1)) by lia. subst last.
    destruct (Z.leb_spec frames b); lia. }
  split; [exact Hstart |]. split; [exact Hend |].
  unfold Resampling.at_. rewrite Hstart, Hend, at_loop_fold.
  destruct (Z.le_gt_cases 0 (last - first + 1)) as [Hnn | Hneg].
  - rewrite Z2Nat.id by exact Hnn. reflexivity.
  - replace (Z.to_nat (last - first + 1)) with 0%nat by lia.
    unfold seqZ. replace (Z.to_nat (last - first + 1)) with 0%nat by lia.
    reflexivity.
Qed.

End Window.

(** * The kernel with an exact table

    The design document asks to read the table-based approximator as exact
    cosine and sine.  [fastCos01_exact] is [fastCos01] on a phase of [i] table
    steps with every table entry the cosine that [init] approximates; the real
    functions named [claimed_...] are the formulas of the design document. *)

Section ExactTable.

Local Open Scope R_scope.

Definition fastCos01_exact (i : Z) : R :=
  let '(j, sign) := quadrant (period_fold i) in
  if (j =? len_cosTable)%Z then 0
  else IZR sign * cos (IZR j * PI / 2 / IZR len_cosTable).

Definition claimed_sinc_half (d : R) : R := sin (PI * d / 2) / (PI * d).

Definition claimed_taper (d : R) : R := 1 / 2 + 1 / 2 * cos (PI * d / 17).

Definition claimed_weight (d : R) : R := claimed_sinc_half d * claimed_taper d.

Lemma period_fold_spec (i : Z) :
  (0 <= i)%Z ->
  exists k : nat,
    (i = period_fold i + Z.of_nat k * 262144)%Z /\ (0 <= period_fold i <= 262144)%Z.
Proof.
  intros Hi. unfold period_fold, len_cosTable, Int.rem.
  change (4 * 65536)%Z with 262144%Z.
  destruct (Z.ltb_spec 262144 i) as [Hbig | Hsmall].
  - exists (Z.to_nat (Z.quot i 262144)).
    pose proof (Z.quot_rem' i 262144) as Hqr.
    pose proof (Z.rem_bound_pos i 262144 ltac:(lia) ltac:(lia)) as Hr.
    assert (0 <= Z.quot i 262144)%Z by (apply Z.quot_pos; lia).
    rewrite Z2Nat.id by lia. lia.
  - exists 0%nat. lia.
Qed.

Lemma cos_whole_periods (x : R) (j : Z) (k : nat) :
  cos (2 * PI * (IZR (j + Z.of_nat k * 262144) / 262144)) = cos (2 * PI * (IZR j / 262144)).
Proof.
  rewrite plus_IZR, mult_IZR, <- INR_IZR_INZ.
  replace (2 * PI * ((IZR j + INR k * 262144) / 262144))
    with (2 * PI * (IZR j / 262144) + 2 * INR k * PI) by (field).
  apply cos_period.
Qed.

(** With an exact table [fastCos01] is the cosine of a whole period per
    unit: at [i] table steps it is [cos (2 pi i / 262144)]. *)
Lemma fastCos01_exact_cos (i : Z) :
  (0 <= i)%Z -> fastCos01_exact i = cos (2 * PI * (IZR i / 262144)).
Proof.
  intros Hi. destruct (period_fold_spec i Hi) as [k [Hk Hr]].
  rewrite Hk at 2. rewrite (cos_whole_periods 0).
  unfold fastCos01_exact. set (p := period_fold i) in *. clearbody p. clear Hk k i Hi.
  unfold quadrant, len_cosTable.
  destruct (Z.ltb_spec p 65536) as [H1 | H1].
  - destruct (Z.eqb_spec p 65536); [lia |].
    rewrite Rmult_1_l. f_equal. field.
  - destruct (Z.ltb_spec p (65536 * 2)) as [H2 | H2].
    + destruct (Z.eqb_spec (65536 * 2 - p) 65536) as [He | He].
      * replace p with 65536%Z by lia.
        replace (2 * PI * (65536 / 262144)) with (PI / 2) by field.
        symmetry. apply cos_PI2.
      * rewrite minus_IZR.
        replace (IZR (65536 * 2)) with 131072 by (rewrite mult_IZR; lra).
        replace ((131072 - IZR p) * PI / 2 / 65536)
          with (PI - 2 * PI * (IZR p / 262144)) by field.
        rewrite Rtrigo_facts.cos_pi_minus. lra.
    + destruct (Z.ltb_spec p (65536 * 3)) as [H3 | H3].
      * destruct (Z.eqb_spec (p - 65536 * 2) 65536); [lia |].
        rewrite minus_IZR.
        replace (IZR (65536 * 2)) with 131072 by (rewrite mult_IZR; lra).
        replace ((IZR p - 131072) * PI / 2 / 65536)
          with (- (PI - 2 * PI * (IZR p / 262144))) by field.
        rewrite cos_neg, Rtrigo_facts.cos_pi_minus. lra.
      * destruct (Z.eqb_spec (65536 * 4 - p) 65536) as [He | He].
        -- replace p with 196608%Z by lia.
           replace (2 * PI * (196608 / 262144)) with (3 * (PI / 2)) by field.
           symmetry. apply cos_3PI2.
        -- rewrite minus_IZR, Rmult_1_l.
           replace (IZR (65536 * 4)) with 262144 by (rewrite mult_IZR; lra).
           replace ((262144 - IZR p) * PI / 2 / 65536)
             with (- (2 * PI * (IZR p / 262144)) + 2 * INR 1 * PI)
             by (cbn [INR]; field).
           rewrite cos_period, cos_neg. reflexivity.
Qed.

(** [fastSin01 x = fastCos01 (x - 0.25)]: a quarter period back, the exact
    cosine is the sine. *)
Lemma cos_quarter_back (x : R) : cos (2 * PI * (x - 1 / 4)) = sin (2 * PI * x).
Proof.
  replace (2 * PI * (x - 1 / 4)) with (- (PI / 2 - 2 * PI * x)) by field.
  rewrite cos_neg. apply cos_shift.
Qed.

Lemma claimed_weight_1_pos : claimed_weight 1 > 0.
Proof.
  unfold claimed_weight, claimed_sinc_half, claimed_taper.
  replace (PI * 1 / 2) with (PI / 2) by field. rewrite sin_PI2.
  pose proof PI_RGT_0 as Hpi.
  assert (Hc : 0 < cos (PI * 1 / 17))
    by (apply cos_gt_0; lra).
  apply Rmult_gt_0_compat.
  - apply Rdiv_lt_0_compat; lra.
  - lra.
Qed.

End ExactTable.

(** * The interpolation weight *)

(** Lines 22-40 of [fastCos01] from the step count on, with the numbers
    left open: [table] is what the table holds, [signed] the product with the
    sign, [zero] the value at the table's end.  The program runs it on
    [float64] with the table [init] filled; read with real numbers and the
    exact cosines in the table it is the kernel the design document means. *)
Definition fastCos01_on {T : Type} (zero : T) (signed : Z -> T -> T)
    (table : Z -> T) (i : Z) : T :=
  let '(j, sign) := quadrant (period_fold i) in
  if j =? len_cosTable then zero else signed sign (table j).

Lemma fastCos01_on_exact (i : Z) :
  fastCos01_on 0%R (fun sign c => IZR sign * c)%R
    (fun j => cos (IZR j * PI / 2 / IZR len_cosTable)) i
  = fastCos01_exact i.
Proof. reflexivity. Qed.

Section Weight.

Variable math_Cos : float -> float.
Variable cvt : Z -> float -> Z.

(** The step count of a finite argument [x = +-m * 2^e] of magnitude at most
    [2^40]: the product with 262144 is exact and its conversion is the integer
    part of [m * 2^(e + 18)]. *)
Lemma steps_of_finite (x : float) (s : bool) (m : positive) (e : Z) :
  Prim2SF x = S754_finite s m e ->
  (abs x <=? 0x1p40)%float = true ->
  F64.to_int cvt 64 (262144 * (if (x <? 0)%float then (- x)%float else x))%float
  = Z.shiftl (Zpos m) (e + 18)
  /\ 0 <= Z.shiftl (Zpos m) (e + 18) < 2 ^ 63.
Proof.
  intros Hx Hle.
  set (x' := if (x <? 0)%float then (- x)%float else x).
  pose proof (Prim2SF_fold_neg x) as Hx'. fold x' in Hx'.
  rewrite Hx in Hx'. cbn [SFabs] in Hx'.
  rewrite FloatAxioms.leb_spec, FloatAxioms.abs_spec, Prim2SF_2p40, Hx in Hle.
  cbn [SFabs] in Hle.
  pose proof (Prim2SF_valid x') as Hvalid. rewrite Hx' in Hvalid.
  pose proof (Prim2SF_valid (262144 * x')%float) as Hvalid2.
  pose proof (valid_finite _ _ _ Hvalid) as [Hcan Hemax].
  rewrite fexp_eq in Hcan.
  assert (He : e <= -12).
  { unfold SFleb, SFcompare in Hle.
    destruct (Z.compare_spec e (-12)); [lia | lia | discriminate Hle]. }
  destruct (SFmul_pow2 18 false m e) as [m' [Hm' Hr]];
    [lia | exact Hvalid | rewrite fexp_eq; lia |].
  change (18 - 52) with (-34) in Hr.
  rewrite FloatAxioms.mul_spec, Prim2SF_262144, Hx', Hr in Hvalid2.
  pose proof (valid_mantissa_bound _ _ _ Hvalid2) as Hm'b.
  set (E := fexp prec emax (Zpos (digits2_pos m) + (e + 18))) in *.
  assert (HE : E = Z.max (Zpos (digits2_pos m) + (e + 18) - 53) (-1074))
    by (subst E; apply fexp_eq).
  assert (Hsh : Z.shiftl (Zpos m') E = Z.shiftl (Zpos m) (e + 18)).
  { rewrite Hm', <- Z.shiftl_mul_pow2 by lia.
    rewrite Z.shiftl_shiftl by lia. f_equal. lia. }
  assert (Hb : 0 <= Z.shiftl (Zpos m') E < 2 ^ 63).
  { change 63 with (53 + 10). apply shiftl_bound; lia. }
  rewrite <- Hsh. split; [| exact Hb].
  apply to_int_trunc; [| lia].
  unfold F64.trunc. rewrite FloatAxioms.mul_spec, Prim2SF_262144, Hx', Hr. reflexivity.
Qed.

Lemma steps_of_zero (x : float) (s : bool) :
  Prim2SF x = S754_zero s ->
  F64.to_int cvt 64 (262144 * (if (x <? 0)%float then (- x)%float else x))%float = 0.
Proof.
  intros Hx. apply (to_int_zero cvt _ s).
  rewrite FloatAxioms.mul_spec, Prim2SF_262144, Prim2SF_fold_neg, Hx. reflexivity.
Qed.

(** From the step count on, [fastCos01] is [fastCos01_on] on floats. *)
Lemma fastCos01_from_steps (x : float) (i : Z) :
  F64.to_int cvt 64 (262144 * (if (x <? 0)%float then (- x)%float else x))%float = i ->
  0 <= i ->
  fastCos01 math_Cos cvt x
  = Some (fastCos01_on 0%float (fun sign c => F64.of_int sign * c)%float
            (cosTable math_Cos) i).
Proof.
  intros Hi Hpos. unfold fastCos01, phase, fastCos01_on. rewrite Hi.
  destruct (period_fold_spec i Hpos) as [k [_ Hr]].
  pose proof (quadrant_range (period_fold i) Hr) as [Hj _].
  destruct (quadrant (period_fold i)) as [j sign]. cbn [fst] in Hj.
  unfold len_cosTable. destruct (Z.eqb_spec j 65536) as [Heq | Hne]; [reflexivity |].
  unfold cosTable_at, len_cosTable.
  destruct (Z.leb_spec 0 j); [| lia]. destruct (Z.ltb_spec j 65536); [| lia].
  reflexivity.
Qed.

(** C4, as the code has it.  The factor applied to source frame [n] at
    offset [d = tSrc - n] is [sinc01 (d / 2) * (0.5 + 0.5 * fastCos01 (d / 17))];
    [sinc01 x] is exactly 1 for [|x| < 1e-8] and otherwise
    [fastCos01 (x - 0.25) / (2 pi x)].  [fastCos01] counts its argument in whole
    periods: for [x = +-m * 2^e] of magnitude at most [2^40] it returns what
    lines 22-40 give at step [floor (|x| * 262144)] of a period of 262144 steps
    (the shift is that integer part), the sign applied as a product.  Those
    lines, read with real numbers and the exact cosines in the table, give
    [cos (2 pi i / 262144)] at step [i].  So, read as exact, the taper is
    [0.5 + 0.5 cos (2 pi d / 17)] and the kernel at [x = d / 2] is
    [sin (pi d) / (pi d)]: twice the angles of the design document. *)
Theorem weight_is_sinc_times_taper :
  (forall (tsrc : float) (n : Z),
      Resampling.weight math_Cos cvt tsrc n
      = (let d := (tsrc - F64.of_int n)%float in
         c ← fastCos01 math_Cos cvt (d / 17)%float;
         k ← sinc01 math_Cos cvt (d / 2)%float;
         Some (k * (0.5 + 0.5 * c))%float))
  /\ (forall x : float,
         (abs x <? 0x1.5798ee2308c3ap-27)%float = true ->
         sinc01 math_Cos cvt x = Some 1%float)
  /\ sinc01 math_Cos cvt 0 = Some 1%float
  /\ (forall x : float,
         (abs x <? 0x1.5798ee2308c3ap-27)%float = false ->
         sinc01 math_Cos cvt x
         = (s ← fastCos01 math_Cos cvt (x - 0.25)%float;
            Some (s / (x * 2 * F64.Pi))%float))
  /\ (forall (x : float) (s : bool) (m : positive) (e : Z),
         Prim2SF x = S754_finite s m e ->
         (abs x <=? 0x1p40)%float = true ->
         fastCos01 math_Cos cvt x
         = Some (fastCos01_on 0%float (fun sign c => F64.of_int sign * c)%float
                   (fun j => math_Cos (F64.of_int j * F64.Pi / 2 / 65536)%float)
                   (Z.shiftl (Zpos m) (e + 18))))
  /\ (forall (x : float) (s : bool),
         Prim2SF x = S754_zero s ->
         fastCos01 math_Cos cvt x
         = Some (fastCos01_on 0%float (fun sign c => F64.of_int sign * c)%float
                   (fun j => math_Cos (F64.of_int j * F64.Pi / 2 / 65536)%float) 0))
  /\ (forall i : Z, 0 <= i ->
         fastCos01_on 0%R (fun sign c => IZR sign * c)%R
           (fun j => cos (IZR j * PI / 2 / 65536)) i
         = cos (2 * PI * (IZR i / 262144)))
  /\ (forall x : R, cos (2 * PI * (x - 1 / 4)) = sin (2 * PI * x))
  /\ (forall d : R, d <> 0%R ->
         (sin (2 * PI * (d / 2)) / (d / 2 * 2 * PI) = sin (PI * d) / (PI * d))%R).
Proof.
  split; [| split; [| split; [| split; [| split; [| split; [| split; [| split]]]]]]].
  - intros tsrc n. unfold Resampling.weight.
    change (Resampling.windowSize * 2 + 1)%float with 17%float.
    destruct (fastCos01 math_Cos cvt _) as [c |]; [| reflexivity].
    destruct (sinc01 math_Cos cvt _) as [k |]; reflexivity.
  - intros x Hx. unfold sinc01. rewrite Hx. reflexivity.
  - reflexivity.
  - intros x Hx. unfold sinc01, fastSin01. rewrite Hx.
    destruct (fastCos01 math_Cos cvt _); reflexivity.
  - intros x s m e Hx Hle.
    destruct (steps_of_finite x s m e Hx Hle) as [Hi Hb].
    exact (fastCos01_from_steps x _ Hi (proj1 Hb)).
  - intros x s Hx.
    exact (fastCos01_from_steps x 0 (steps_of_zero x s Hx) (Z.le_refl 0)).
  - intros i Hi. rewrite <- (fastCos01_exact_cos i Hi). reflexivity.
  - exact cos_quarter_back.
  - intros d Hd. pose proof PI_neq0.
    replace (2 * PI * (d / 2))%R with (PI * d)%R by field.
    replace (d / 2 * 2 * PI)%R with (PI * d)%R by field. reflexivity.
Qed.

End Weight.

(** * Streams and tables to run the model on *)

(** A degree-12 polynomial for the cosine on [[0, pi/2]], to fill the table
    where it has to be evaluated. *)
Definition cos_poly (x : float) : float :=
  let y := (x * x)%float in
  (1 - y / 2 * (1 - y / 12 * (1 - y / 30 * (1 - y / 56
     * (1 - y / 90 * (1 - y / 132))))))%float.

Definition mem (data : list byte) : MemSource :=
  {| mem_data := data; mem_off := 0; mem_fails_at := None |}.

(** A source whose reads fail from offset [k] on. *)
Definition mem_failing (data : list byte) (k : nat) : MemSource :=
  {| mem_data := data; mem_off := 0; mem_fails_at := Some k |}.

(** [P i] for [k] consecutive integers from [i] on. *)
Fixpoint all_from (P : Z -> bool) (i : Z) (k : nat) : bool :=
  match k with
  | O => true
  | S k' => P i && all_from P (i + 1) k'
  end.

Lemma all_from_spec (P : Z -> bool) (k : nat) :
  forall i : Z, all_from P i k = true ->
  forall j : Z, i <= j < i + Z.of_nat k -> P j = true.
Proof.
  induction k as [| k IH]; intros i Hall j Hj; [lia |].
  cbn [all_from] in Hall. apply andb_prop in Hall as [Hi Hrest].
  destruct (Z.eq_dec j i) as [-> | Hne]; [exact Hi |].
  apply (IH (i + 1) Hrest). lia.
Qed.

Lemma cos_poly_table_in_range :
  forall i : Z, 0 <= i < len_cosTable ->
    (-1 <=? cosTable cos_poly i)%float = true /\ (cosTable cos_poly i <=? 1)%float = true.
Proof.
  intros i Hi.
  assert (Hall : all_from (fun i => (-1 <=? cosTable cos_poly i)%float
                                    && (cosTable cos_poly i <=? 1)%float)
                          0 (Z.to_nat 65536) = true)
    by (vm_compute; reflexivity).
  pose proof (all_from_spec _ _ _ Hall i) as Hp. cbv beta in Hp.
  apply andb_prop. apply Hp. unfold len_cosTable in Hi. lia.
Qed.

(** * The statements on concrete streams *)

(** C1.  [Seek] with [io.SeekEnd] adds [Length() + offset] to the cursor
    instead of setting the cursor to it: on a stream of length 16 with the
    cursor at 8, seeking to 4 bytes before the end leaves the cursor at 16
    (the clamped [8 + 16 - 4]), not at 12. *)
Example Seek_from_end_adds_cursor :
  Resampling.Length F64.amd64 (Resampling.NewResampling (mem []) 16 1 1) = 16
  /\ Resampling.Seek F64.amd64 8 SeekStart (Resampling.NewResampling (mem []) 16 1 1)
     = (Resampling.set_pos (Resampling.NewResampling (mem []) 16 1 1) 8, (8, None))
  /\ snd (Resampling.Seek F64.amd64 (-4) SeekEnd
            (Resampling.set_pos (Resampling.NewResampling (mem []) 16 1 1) 8))
     = (16, None)
  /\ Z.min (Z.max (16 + -4) 0) 16 = 12.
Proof. repeat split. Qed.

(** The mid-scale byte 128 becomes the sample 128 on both channels. *)
Lemma mono8_midscale_counterexample :
  snd (Stereo16.Read (Stereo16.NewStereo16 (mem [x80; x80]) true true) (repeat x00 8))
  = Some ([x80; x00; x80; x00; x80; x00; x80; x00], (8, None))
  /\ sample16 x80 x00 = 128.
Proof. split; reflexivity. Qed.

Lemma mono8_expands_each_byte_witness :
  exists b' : list byte,
    Stereo16.Read (Stereo16.NewStereo16 (mem [x80; x07]) true true) (repeat x00 8)
    = (Stereo16.NewStereo16
         {| mem_data := [x80; x07]; mem_off := 2; mem_fails_at := None |} true true,
       Some (b', (4 * Z.of_nat (length [x80; x07]), None)))
    /\ frame_is b' 1 (to_byte (7 * 257 - 32768)) (to_byte (Z.shiftr (7 * 257 - 32768) 8))
                     (to_byte (7 * 257 - 32768)) (to_byte (Z.shiftr (7 * 257 - 32768) 8)).
Proof.
  destruct (mono8_expands_each_byte
              (Stereo16.NewStereo16 (mem [x80; x07]) true true) (repeat x00 8)
              {| mem_data := [x80; x07]; mem_off := 2; mem_fails_at := None |}
              [x80; x07] None)
    as (b' & Hread & _ & Hframes).
  - reflexivity.
  - reflexivity.
  - reflexivity.
  - reflexivity.
  - cbn. lia.
  - discriminate.
  - exists b'. split; [exact Hread |].
    exact (proj1 (Hframes 1%nat x07 eq_refl)).
Defined.

(** One second half-way between two source frames: the code stops at frame
    8, the design document's window at frame 9. *)
Lemma window_end_counterexample :
  (Resampling.startN F64.amd64 (Resampling.NewResampling (mem []) 64 1 2) 1,
   Resampling.endN F64.amd64 (Resampling.NewResampling (mem []) 64 1 2) 1) = (0, 8)
  /\ claimed_window (Resampling.NewResampling (mem []) 64 1 2) 1 = (0, 9).
Proof. split; reflexivity. Qed.

Lemma window_is_truncated_witness :
  Resampling.startN F64.amd64 (Resampling.NewResampling (mem []) 64 1 2) 1
  = Z.min (Z.max (-7) 0) (Int.div 64 4 - 1)
  /\ Resampling.endN F64.amd64 (Resampling.NewResampling (mem []) 64 1 2) 1
     = Z.min 8 (Int.div 64 4 - 1).
Proof.
  destruct (window_is_truncated cos_poly F64.amd64 1
              (Resampling.NewResampling (mem []) 64 1 2) 1 (-7) 8)
    as (Hs & He & _).
  - cbn. lia.
  - reflexivity.
  - lia.
  - reflexivity.
  - lia.
  - split; [exact Hs | exact He].
Defined.

(** At [d = 1] the code's factor is exactly 0 (the sine is read at a
    quadrant boundary, where [fastCos01] returns 0 without the table), while
    the design document's formula is positive there. *)
Lemma weight_at_one_counterexample :
  Resampling.weight cos_poly F64.amd64 1 0 = Some 0%float
  /\ (claimed_weight 1 > 0)%R.
Proof. split; [vm_compute; reflexivity | exact claimed_weight_1_pos]. Qed.

(** At 0.3 of a period the kernel reads step [floor (0.3 * 262144) = 78643]. *)
Lemma weight_is_sinc_times_taper_witness :
  fastCos01 cos_poly F64.amd64 0.3
  = Some (fastCos01_on 0%float (fun sign c => F64.of_int sign * c)%float
            (fun j => cos_poly (F64.of_int j * F64.Pi / 2 / 65536)%float) 78643)
  /\ fastCos01_on 0%R (fun sign c => IZR sign * c)%R
       (fun j => cos (IZR j * PI / 2 / 65536)) 78643
     = cos (2 * PI * (78643 / 262144)).
Proof.
  destruct (weight_is_sinc_times_taper cos_poly F64.amd64)
    as (_ & _ & _ & _ & Hsteps & _ & Hexact & _).
  split.
  - exact (Hsteps 0.3%float false 5404319552844595%positive (-54) eq_refl eq_refl).
  - exact (Hexact 78643 ltac:(lia)).
Defined.



(** On amd64 a scaled size of [2^64] does not fit [int64], and the length
    is negative. *)
Lemma Length_counterexample :
  Resampling.Length F64.amd64 (Resampling.NewResampling (mem []) (2 ^ 62) 1 4)
  = - 2 ^ 63.
Proof. reflexivity. Qed.

Lemma Length_nonneg_multiple_of_4_witness :
  0 <= Resampling.Length F64.amd64 (Resampling.NewResampling (mem []) 176400 44100 48000)
  /\ (4 | Resampling.Length F64.amd64
            (Resampling.NewResampling (mem []) 176400 44100 48000)).
Proof.
  apply (Length_nonneg_multiple_of_4 F64.amd64
           (Resampling.NewResampling (mem []) 176400 44100 48000)).
  - cbn. lia.
  - cbn. lia.
  - cbn. lia.
  - reflexivity.
Defined.


Lemma fastCos01_even_exact_at_quadrants_witness :
  fastCos01 cos_poly F64.amd64 (PrimFloat.opp 0.3125) = fastCos01 cos_poly F64.amd64 0.3125
  /\ fastCos01 cos_poly F64.amd64 0.5 = Some (-1)%float.
Proof.
  destruct (fastCos01_even_exact_at_quadrants cos_poly F64.amd64 eq_refl)
    as (Heven & _ & _ & Hhalf & _).
  split; [exact (Heven 0.3125%float) | exact Hhalf].
Defined.

Lemma fastCos01_in_bounds_witness :
  exists v : float,
    fastCos01 cos_poly F64.amd64 1234.5 = Some v
    /\ (-1 <=? v)%float = true /\ (v <=? 1)%float = true.
Proof.
  exact (proj2 (proj2 (fastCos01_in_bounds cos_poly F64.amd64 1234.5
                         cos_poly_table_in_range eq_refl))).
Defined.


(** * Further properties of the normaliser *)

Section NormaliserMore.

Context {Src : Type} `{ReadSeekCloser Src}.

(** X1.  Mono 16-bit: every complete source sample (two bytes) is copied
    unchanged to the left and to the right channel of its output frame; the
    rest of the buffer is left as it was; and the count returned is twice the
    bytes read, also when a trailing odd byte was read and dropped. *)
Theorem mono16_duplicates_each_sample (s : Stereo16.Stereo16 Src) (b : list byte)
    (src' : Src) (buf : list byte) (err : option error) :
  Stereo16.mono s = true -> Stereo16.eight s = false ->
  Z.of_nat (length b) < 2 ^ 63 ->
  rsc_Read (Stereo16.source s) (length b / 2) = (src', (buf, err)) ->
  (length buf <= length b / 2)%nat ->
  (forall c : nat, err <> Some (IOError c)) ->
  exists b' : list byte,
    Stereo16.Read s b
    = (Stereo16.NewStereo16 src' true false,
       Some (b', (2 * Z.of_nat (length buf), err)))
    /\ length b' = length b
    /\ (forall (i : nat) (x0 x1 : byte),
          buf !! (2 * i)%nat = Some x0 -> buf !! (2 * i + 1)%nat = Some x1 ->
          frame_is b' i x0 x1 x0 x1)
    /\ forall idx : nat, (4 * (length buf / 2) <= idx)%nat -> b' !! idx = b !! idx.
Proof.
  intros Hmono Height Hb Hread Hlen Herr.
  assert (Hhalf : (2 * (length buf / 2) <= length buf)%nat)
    by (apply Nat.Div0.mul_div_le).
  assert (Hdiv : (2 * (length b / 2) <= length b)%nat)
    by (apply Nat.Div0.mul_div_le).
  set (f := fun j : nat =>
              (nth (2 * j) buf Byte.x00, nth (2 * j + 1) buf Byte.x00,
               nth (2 * j) buf Byte.x00, nth (2 * j + 1) buf Byte.x00)).
  destruct (for_loop_frames (Stereo16.body_mono_sixteen buf) f (length buf / 2))
    with (k := (length buf / 2)%nat) (i := 0%nat) (b := b)
    as (b' & Hloop & Hlen' & Hfr & Hout); [| lia | lia |].
  { intros j b0 Hj Hb0. unfold Stereo16.body_mono_sixteen.
    destruct (nth_lookup_or_length buf (2 * j) Byte.x00) as [Hn0 | Hge]; [| lia].
    destruct (nth_lookup_or_length buf (2 * j + 1) Byte.x00) as [Hn1 | Hge]; [| lia].
    rewrite Hn0, Hn1. reflexivity. }
  exists b'. split; [| split; [exact Hlen' | split]].
  - unfold Stereo16.Read. rewrite Hmono, Height, Hread.
    assert (Hn : Int.int64 (Z.of_nat (length buf) * 2) = 2 * Z.of_nat (length buf))
      by (rewrite int64_id by lia; lia).
    destruct err as [[| c] |]; [| destruct (Herr c eq_refl) |];
      rewrite Hloop, Hn; reflexivity.
  - intros i x0 x1 Hx0 Hx1.
    assert (Hi : (2 * i + 1 < length buf)%nat) by (apply lookup_lt_Some in Hx1; exact Hx1).
    assert (Hi2 : (i < length buf / 2)%nat)
      by (apply Nat.div_le_lower_bound; lia).
    pose proof (Hfr i ltac:(lia)) as Hframe.
    subst f. cbv beta in Hframe. cbn [fst snd] in Hframe.
    rewrite (nth_lookup_Some _ _ Byte.x00 _ Hx0), (nth_lookup_Some _ _ Byte.x00 _ Hx1)
      in Hframe.
    exact Hframe.
  - intros idx Hidx. apply Hout. lia.
Qed.

(** X2.  Stereo 8-bit: the two bytes of source frame [i] become the
    samples [x * 257 - 32768] of the left and of the right channel of output
    frame [i], each in little-endian order; the count returned is twice the
    bytes read. *)
Theorem stereo8_expands_each_channel (s : Stereo16.Stereo16 Src) (b : list byte)
    (src' : Src) (buf : list byte) (err : option error) :
  Stereo16.mono s = false -> Stereo16.eight s = true ->
  Z.of_nat (length b) < 2 ^ 63 ->
  rsc_Read (Stereo16.source s) (length b / 2) = (src', (buf, err)) ->
  (length buf <= length b / 2)%nat ->
  (forall c : nat, err <> Some (IOError c)) ->
  exists b' : list byte,
    Stereo16.Read s b
    = (Stereo16.NewStereo16 src' false true,
       Some (b', (2 * Z.of_nat (length buf), err)))
    /\ length b' = length b
    /\ (forall (i : nat) (x0 x1 : byte),
          buf !! (2 * i)%nat = Some x0 -> buf !! (2 * i + 1)%nat = Some x1 ->
          let v0 := byte_val x0 * 257 - 32768 in
          let v1 := byte_val x1 * 257 - 32768 in
          frame_is b' i (to_byte v0) (to_byte (Z.shiftr v0 8))
                        (to_byte v1) (to_byte (Z.shiftr v1 8))
          /\ sample16 (to_byte v0) (to_byte (Z.shiftr v0 8)) = v0
          /\ sample16 (to_byte v1) (to_byte (Z.shiftr v1 8)) = v1)
    /\ forall idx : nat, (4 * (length buf / 2) <= idx)%nat -> b' !! idx = b !! idx.
Proof.
  intros Hmono Height Hb Hread Hlen Herr.
  assert (Hhalf : (2 * (length buf / 2) <= length buf)%nat)
    by (apply Nat.Div0.mul_div_le).
  assert (Hdiv : (2 * (length b / 2) <= length b)%nat)
    by (apply Nat.Div0.mul_div_le).
  set (f := fun j : nat =>
              let v0 := Stereo16.expand8 (nth (2 * j) buf Byte.x00) in
              let v1 := Stereo16.expand8 (nth (2 * j + 1) buf Byte.x00) in
              (to_byte v0, to_byte (Z.shiftr v0 8), to_byte v1, to_byte (Z.shiftr v1 8))).
  destruct (for_loop_frames (Stereo16.body_stereo_eight buf) f (length buf / 2))
    with (k := (length buf / 2)%nat) (i := 0%nat) (b := b)
    as (b' & Hloop & Hlen' & Hfr & Hout); [| lia | lia |].
  { intros j b0 Hj Hb0. unfold Stereo16.body_stereo_eight.
    destruct (nth_lookup_or_length buf (2 * j) Byte.x00) as [Hn0 | Hge]; [| lia].
    destruct (nth_lookup_or_length buf (2 * j + 1) Byte.x00) as [Hn1 | Hge]; [| lia].
    rewrite Hn0, Hn1. reflexivity. }
  exists b'. split; [| split; [exact Hlen' | split]].
  - unfold Stereo16.Read. rewrite Hmono, Height, Hread.
    assert (Hn : Int.int64 (Z.of_nat (length buf) * 2) = 2 * Z.of_nat (length buf))
      by (rewrite int64_id by lia; lia).
    destruct err as [[| c] |]; [| destruct (Herr c eq_refl) |];
      rewrite Hloop, Hn; reflexivity.
  - intros i x0 x1 Hx0 Hx1 v0 v1.
    assert (Hi : (2 * i + 1 < length buf)%nat) by (apply lookup_lt_Some in Hx1; exact Hx1).
    assert (Hi2 : (i < length buf / 2)%nat)
      by (apply Nat.div_le_lower_bound; lia).
    pose proof (Hfr i ltac:(lia)) as Hframe.
    subst f. cbv beta zeta in Hframe. cbn [fst snd] in Hframe.
    rewrite (nth_lookup_Some _ _ Byte.x00 _ Hx0), (nth_lookup_Some _ _ Byte.x00 _ Hx1),
      !expand8_val in Hframe.
    split; [exact Hframe |].
    pose proof (expand8_bytes x0) as H0. pose proof (expand8_bytes x1) as H1.
    rewrite expand8_val in H0, H1. split; assumption.
  - intros idx Hidx. apply Hout. lia.
Qed.

(** X3.  An error of the source other than [io.EOF] ends [Read] with
    [(0, err)]: the bytes the source may have delivered are dropped and the
    caller's buffer is as it was, in every mode. *)
Theorem normaliser_read_error (s : Stereo16.Stereo16 Src) (b : list byte) :
  forall (src' : Src) (buf : list byte) (c : nat),
    rsc_Read (Stereo16.source s)
      (let l := length b in
       let l := if Stereo16.mono s then (l / 2)%nat else l in
       if Stereo16.eight s then (l / 2)%nat else l)
    = (src', (buf, Some (IOError c))) ->
    Stereo16.Read s b
    = (Stereo16.NewStereo16 src' (Stereo16.mono s) (Stereo16.eight s),
       Some (b, (0, Some (IOError c)))).
Proof.
  intros src' buf c Hread. unfold Stereo16.Read. cbv zeta in Hread.
  rewrite Hread. reflexivity.
Qed.

(** X4.  With neither flag set (a source that is stereo 16-bit already)
    [Read] reads from the source into its own scratch slice and copies
    nothing: it returns the source's count and error while the caller's
    buffer keeps its old contents. *)
Theorem stereo16_read_copies_nothing (s : Stereo16.Stereo16 Src) (b : list byte)
    (src' : Src) (buf : list byte) (err : option error) :
  Stereo16.mono s = false -> Stereo16.eight s = false ->
  rsc_Read (Stereo16.source s) (length b) = (src', (buf, err)) ->
  Stereo16.Read s b
  = (Stereo16.NewStereo16 src' false false,
     Some (b, (if err is Some (IOError _) then 0 else Z.of_nat (length buf), err))).
Proof.
  intros Hmono Height Hread. unfold Stereo16.Read.
  rewrite Hmono, Height, Hread. destruct err as [[| c] |]; reflexivity.
Qed.

(** X5.  [Seek] divides the offset by 2 for mono and by 2 again for 8-bit,
    rounding towards zero, passes [whence] on unchanged, and returns what the
    source returns: the position reported is the source's, not scaled back to
    output bytes. *)
Theorem normaliser_seek_scales_offset (s : Stereo16.Stereo16 Src) (offset whence : Z) :
  let k := (if Stereo16.mono s then 2 else 1) * (if Stereo16.eight s then 2 else 1) in
  Stereo16.Seek s offset whence
  = (Stereo16.NewStereo16 (fst (rsc_Seek (Stereo16.source s) (Z.quot offset k) whence))
       (Stereo16.mono s) (Stereo16.eight s),
     snd (rsc_Seek (Stereo16.source s) (Z.quot offset k) whence)).
Proof.
  intros k. unfold Stereo16.Seek, Int.div. subst k.
  assert (Hq : Z.quot (Z.quot offset 2) 2 = Z.quot offset (2 * 2))
    by (apply Z.quot_quot; lia).
  destruct (Stereo16.mono s), (Stereo16.eight s);
    rewrite ?Hq, ?Z.quot_1_r;
    change (1 * 2) with 2; change (2 * 1) with 2; change (1 * 1) with 1;
    rewrite ?Z.quot_1_r;
    destruct (rsc_Seek _ _ _) as [src' res]; reflexivity.
Qed.

End NormaliserMore.


(** * Further properties of the block cache *)

Section CacheMore.

Context {Src : Type} `{ReadSeekCloser Src}.
Variable math_Cos : float -> float.
Variable cvt : Z -> float -> Z.

Abbreviation Stream' := (Resampling.Resampling Src).

(** X6.  Frames outside the source are silence: for a negative index and
    for an index at or beyond [size / 4], [src] returns [(0, 0)] with no
    error and touches neither the source nor the cache. *)
Theorem src_outside_is_silence (fuel : nat) (i : Z) (r : Stream') :
  i < 0 \/ Int.div (Resampling.size r) 4 <= i ->
  Resampling.src fuel i r = (r, Ok (0%float, 0%float)).
Proof.
  intros Hi. unfold Resampling.src.
  destruct (Z.ltb_spec i 0); [reflexivity |].
  destruct (Z.leb_spec (Int.div (Resampling.size r) 4) i); [reflexivity | lia].
Qed.

(** Every resident block has all its 4096 samples. *)
Definition blocks_full (r : Stream') : Prop :=
  (forall (k : Z) (blk : list float),
      Resampling.srcBufL r !! k = Some blk -> length blk = 4096%nat)
  /\ (forall (k : Z) (blk : list float),
         Resampling.srcBufR r !! k = Some blk -> length blk = 4096%nat).

Lemma blocks_full_insert (r : Stream') (np : Z) (buf : list byte) (r2 : Stream') :
  blocks_full r ->
  Resampling.evict
    (Resampling.set_cache r np
       (<[np := Resampling.decode_block 0 buf]> (Resampling.srcBufL r))
       (<[np := Resampling.decode_block 2 buf]> (Resampling.srcBufR r))
       (Resampling.lruSrcBlocks r)) = Some r2 ->
  blocks_full r2.
Proof.
  intros [HL HR] Hev. unfold Resampling.evict in Hev.
  cbn [Resampling.lruSrcBlocks Resampling.set_cache Resampling.srcBufL
       Resampling.srcBufR Resampling.srcBlock] in Hev.
  assert (HL' : forall (k : Z) (blk : list float),
             <[np := Resampling.decode_block 0 buf]> (Resampling.srcBufL r) !! k = Some blk ->
             length blk = 4096%nat).
  { intros k blk. destruct (decide (np = k)) as [-> | Hne].
    - rewrite lookup_insert_eq. intros [= <-]. apply decode_block_length.
    - rewrite lookup_insert_ne by exact Hne. apply HL. }
  assert (HR' : forall (k : Z) (blk : list float),
             <[np := Resampling.decode_block 2 buf]> (Resampling.srcBufR r) !! k = Some blk ->
             length blk = 4096%nat).
  { intros k blk. destruct (decide (np = k)) as [-> | Hne].
    - rewrite lookup_insert_eq. intros [= <-]. apply decode_block_length.
    - rewrite lookup_insert_ne by exact Hne. apply HR. }
  destruct (4 <=? length (Resampling.lruSrcBlocks r))%nat.
  - destruct (Resampling.lruSrcBlocks r) as [| p rest]; [discriminate Hev |].
    injection Hev as Hev. subst r2. split; cbn; intros k blk Hk.
    + destruct (decide (p = k)) as [-> | Hne];
        [rewrite lookup_delete_eq in Hk; discriminate Hk |].
      rewrite lookup_delete_ne in Hk by exact Hne. exact (HL' k blk Hk).
    + destruct (decide (p = k)) as [-> | Hne];
        [rewrite lookup_delete_eq in Hk; discriminate Hk |].
      rewrite lookup_delete_ne in Hk by exact Hne. exact (HR' k blk Hk).
  - injection Hev as Hev. subst r2. split; cbn; assumption.
Qed.


(** The cache is in order: the invariant of C5 and full blocks. *)
Definition cache_ok (r : Stream') : Prop := cache_inv r /\ blocks_full r.

(** A source whose [Read] never reports more bytes than the slice holds. *)
Definition reads_within_slice : Prop :=
  forall (s : Src) (n : nat), (length (fst (snd (rsc_Read s n))) <= n)%nat.

Lemma read_block_within (Hsrc : reads_within_slice) (fuel : nat) :
  forall (s : Src) (acc : list byte),
    (length acc <= Resampling.block_bytes)%nat ->
    snd (Resampling.read_block fuel s acc) <> Panic
    /\ forall buf : list byte,
        snd (Resampling.read_block fuel s acc) = Ok buf ->
        (length buf <= Resampling.block_bytes)%nat.
Proof.
  induction fuel as [| fuel IH]; intros s acc Hacc; cbn [Resampling.read_block].
  - split; [discriminate | intros buf Hb; discriminate Hb].
  - destruct (Nat.ltb_spec (length acc) Resampling.block_bytes) as [Hlt | Hge].
    + pose proof (Hsrc s (Resampling.block_bytes - length acc)%nat) as Hn.
      destruct (rsc_Read s (Resampling.block_bytes - length acc)%nat) as [s1 [data err]].
      cbn [fst snd] in Hn.
      assert (Hacc' : (length (acc ++ data) <= Resampling.block_bytes)%nat)
        by (rewrite length_app; lia).
      destruct err as [[| c] |]; cbn [snd].
      * apply Nat.leb_le in Hacc'. rewrite Hacc'. apply Nat.leb_le in Hacc'.
        split; [discriminate | intros buf [= <-]; exact Hacc'].
      * split; [discriminate | intros buf Hb; discriminate Hb].
      * apply IH, Hacc'.
    + apply Nat.leb_le in Hacc. rewrite Hacc. apply Nat.leb_le in Hacc. cbn [snd].
      split; [discriminate | intros buf [= <-]; exact Hacc].
Qed.

Lemma fetch_resident (r : Stream') (i : Z) (bl br : list float) :
  0 <= i ->
  Resampling.srcBufL r !! Resampling.srcBlock r = Some bl -> length bl = 4096%nat ->
  Resampling.srcBufR r !! Resampling.srcBlock r = Some br -> length br = 4096%nat ->
  exists l x : float,
    bl !! Z.to_nat (Z.rem i 4096) = Some l
    /\ br !! Z.to_nat (Z.rem i 4096) = Some x
    /\ Resampling.fetch r i = Ok (l, x).
Proof.
  intros Hi HL HlenL HR HlenR.
  pose proof (Z.rem_bound_pos i 4096 Hi ltac:(lia)) as Hrem.
  destruct (lookup_lt_is_Some_2 bl (Z.to_nat (Z.rem i 4096))) as [l Hl]; [lia |].
  destruct (lookup_lt_is_Some_2 br (Z.to_nat (Z.rem i 4096))) as [x Hx]; [lia |].
  exists l, x. split; [exact Hl |]. split; [exact Hx |].
  unfold Resampling.fetch, Int.rem, Resampling.resamplingBufferSize.
  rewrite HL, HR, Hl, Hx. reflexivity.
Qed.

(** X7.  A frame of a resident block is served from the cache: the source
    is not touched, the two sample maps are unchanged, the block moves to the
    most-recently-used end of the LRU list while the others keep their order,
    and the samples returned are the ones stored at [i mod 4096]. *)
Theorem src_hit_serves_from_cache (fuel : nat) (i : Z) (r : Stream') (bl : list float) :
  cache_ok r ->
  0 <= i < Int.div (Resampling.size r) 4 ->
  Resampling.srcBufL r !! Z.quot i 4096 = Some bl ->
  exists (br : list float) (l x : float) (idx : nat),
    Resampling.srcBufR r !! Z.quot i 4096 = Some br
    /\ bl !! Z.to_nat (Z.rem i 4096) = Some l
    /\ br !! Z.to_nat (Z.rem i 4096) = Some x
    /\ Resampling.lruSrcBlocks r !! idx = Some (Z.quot i 4096)
    /\ Resampling.src fuel i r
       = (Resampling.set_cache r (Z.quot i 4096)
            (Resampling.srcBufL r) (Resampling.srcBufR r)
            ((take idx (Resampling.lruSrcBlocks r)
              ++ drop (S idx) (Resampling.lruSrcBlocks r)) ++ [Z.quot i 4096]),
          Ok (l, x)).
Proof.
  intros [(Hlen & Hnd & HdL & HdR) [HfL HfR]] Hi Hbl.
  set (np := Z.quot i 4096) in *.
  assert (Hin : np ∈ Resampling.lruSrcBlocks r).
  { assert (Hd : np ∈ dom (Resampling.srcBufL r)) by (apply elem_of_dom; eauto).
    rewrite HdL in Hd. apply elem_of_list_to_set in Hd. exact Hd. }
  assert (HinR : is_Some (Resampling.srcBufR r !! np)).
  { apply elem_of_dom. rewrite HdR. apply elem_of_list_to_set. exact Hin. }
  destruct HinR as [br Hbr].
  destruct (index_of_member np _ Hin) as [idx Hidx].
  pose proof (index_of_lookup _ _ _ Hidx) as Hlk.
  set (r' := Resampling.set_cache r np (Resampling.srcBufL r) (Resampling.srcBufR r)
               ((take idx (Resampling.lruSrcBlocks r)
                 ++ drop (S idx) (Resampling.lruSrcBlocks r)) ++ [np])).
  destruct (fetch_resident r' i bl br) as (l & x & Hl & Hx & Hf);
    [lia | exact Hbl | exact (HfL _ _ Hbl) | exact Hbr | exact (HfR _ _ Hbr) |].
  exists br, l, x, idx. repeat (split; [assumption |]).
  unfold Resampling.src, Int.div, Resampling.resamplingBufferSize.
  destruct (Z.ltb_spec i 0); [lia |].
  destruct (Z.leb_spec (Z.quot (Resampling.size r) 4) i); [unfold Int.div in Hi; lia |].
  fold np. rewrite Hbl.
  cbn [Resampling.srcBlock Resampling.lruSrcBlocks Resampling.set_cache
       Resampling.srcBufL Resampling.srcBufR].
  rewrite Hidx. exact (f_equal2 pair (eq_refl r') Hf).
Qed.


(** X8.  A frame of a block that is not resident, the source delivering
    [buf]: the decoded block becomes resident in both maps and most recently
    used; when four blocks were resident the least recently used one (the head
    of the list) is dropped from both maps, and no other block changes; the
    samples returned are entry [i mod 4096] of the decoded block. *)
Theorem src_miss_loads_and_evicts (fuel : nat) (i : Z) (r : Stream')
    (s1 s2 : Src) (buf : list byte) :
  cache_ok r ->
  0 <= i < Int.div (Resampling.size r) 4 ->
  Resampling.srcBufL r !! Z.quot i 4096 = None ->
  Resampling.seek_block r (Z.quot i 4096) = (s1, None) ->
  Resampling.read_block fuel s1 [] = (s2, Ok buf) ->
  let np := Z.quot i 4096 in
  let full := (4 <=? length (Resampling.lruSrcBlocks r))%nat in
  let gone (k : Z) := full && bool_decide (head (Resampling.lruSrcBlocks r) = Some k) in
  exists (r' : Stream') (l x : float),
    Resampling.src fuel i r = (r', Ok (l, x))
    /\ Resampling.decode_block 0 buf !! Z.to_nat (Z.rem i 4096) = Some l
    /\ Resampling.decode_block 2 buf !! Z.to_nat (Z.rem i 4096) = Some x
    /\ Resampling.source r' = s2 /\ Resampling.srcBlock r' = np
    /\ Resampling.lruSrcBlocks r'
       = (if full then tail (Resampling.lruSrcBlocks r) else Resampling.lruSrcBlocks r)
         ++ [np]
    /\ Resampling.srcBufL r' !! np = Some (Resampling.decode_block 0 buf)
    /\ Resampling.srcBufR r' !! np = Some (Resampling.decode_block 2 buf)
    /\ forall k : Z, k <> np ->
         Resampling.srcBufL r' !! k
         = (if gone k then None else Resampling.srcBufL r !! k)
         /\ Resampling.srcBufR r' !! k
            = (if gone k then None else Resampling.srcBufR r !! k).
Proof.
  intros [(Hlen & Hnd & HdL & HdR) [HfL HfR]] Hi Hnone Hseek Hread np full gone.
  fold np in Hnone, Hseek.
  assert (Hfresh : np ∉ Resampling.lruSrcBlocks r).
  { intros Hin. apply not_elem_of_dom in Hnone. apply Hnone.
    rewrite HdL. apply elem_of_list_to_set. exact Hin. }
  assert (Hsrc : Resampling.src fuel i r
                 = match Resampling.evict
                           (Resampling.set_cache (Resampling.set_source r s2) np
                              (<[np := Resampling.decode_block 0 buf]> (Resampling.srcBufL r))
                              (<[np := Resampling.decode_block 2 buf]> (Resampling.srcBufR r))
                              (Resampling.lruSrcBlocks r)) with
                   | Some r2 =>
                       let r3 := Resampling.set_cache r2 (Resampling.srcBlock r2)
                                   (Resampling.srcBufL r2) (Resampling.srcBufR r2)
                                   (Resampling.lruSrcBlocks r2 ++ [Resampling.srcBlock r2]) in
                       (r3, Resampling.fetch r3 i)
                   | None =>
                       (Resampling.set_cache (Resampling.set_source r s2) np
                          (<[np := Resampling.decode_block 0 buf]> (Resampling.srcBufL r))
                          (<[np := Resampling.decode_block 2 buf]> (Resampling.srcBufR r))
                          (Resampling.lruSrcBlocks r), Panic)
                   end).
  { unfold Resampling.src, Int.div, Resampling.resamplingBufferSize.
    destruct (Z.ltb_spec i 0); [lia |].
    destruct (Z.leb_spec (Z.quot (Resampling.size r) 4) i); [unfold Int.div in Hi; lia |].
    cbv zeta. fold np. unfold Resampling.resamplingBufferSize in Hseek.
    rewrite Hnone, Hseek, Hread. reflexivity. }
  rewrite Hsrc. clear Hsrc. unfold Resampling.evict.
  cbn [Resampling.lruSrcBlocks Resampling.set_cache Resampling.srcBufL
       Resampling.srcBufR Resampling.srcBlock Resampling.set_source].
  fold full. subst gone. cbv beta.
  destruct full eqn:Hfull.
  - destruct (Resampling.lruSrcBlocks r) as [| p rest] eqn:Hlru; [discriminate Hfull |].
    apply not_elem_of_cons in Hfresh as [Hne _].
    cbv zeta.
    cbn [Resampling.lruSrcBlocks Resampling.set_cache Resampling.srcBufL
         Resampling.srcBufR Resampling.srcBlock Resampling.set_source tail head].
    match goal with
    | |- context [Resampling.fetch ?r3 i] =>
        destruct (fetch_resident r3 i (Resampling.decode_block 0 buf)
                    (Resampling.decode_block 2 buf)) as (l & x & Hl & Hx & Hf);
        [lia
        | cbn; rewrite lookup_delete_ne by congruence; apply lookup_insert_eq
        | apply decode_block_length
        | cbn; rewrite lookup_delete_ne by congruence; apply lookup_insert_eq
        | apply decode_block_length
        | eexists r3, l, x; rewrite Hf ]
    end.
    split; [reflexivity |]. split; [exact Hl |]. split; [exact Hx |].
    cbn [Resampling.lruSrcBlocks Resampling.set_cache Resampling.srcBufL
         Resampling.srcBufR Resampling.srcBlock Resampling.set_source Resampling.source].
    split; [reflexivity |]. split; [reflexivity |]. split; [reflexivity |].
    split; [rewrite lookup_delete_ne by congruence; apply lookup_insert_eq |].
    split; [rewrite lookup_delete_ne by congruence; apply lookup_insert_eq |].
    intros k Hk. cbn [andb]. case_bool_decide as Hhead.
    + injection Hhead as ->. rewrite !lookup_delete_eq. split; reflexivity.
    + assert (p <> k) by congruence.
      rewrite !lookup_delete_ne, !lookup_insert_ne by congruence. split; reflexivity.
  - cbv zeta.
    cbn [Resampling.lruSrcBlocks Resampling.set_cache Resampling.srcBufL
         Resampling.srcBufR Resampling.srcBlock Resampling.set_source].
    match goal with
    | |- context [Resampling.fetch ?r3 i] =>
        destruct (fetch_resident r3 i (Resampling.decode_block 0 buf)
                    (Resampling.decode_block 2 buf)) as (l & x & Hl & Hx & Hf);
        [lia
        | cbn; apply lookup_insert_eq
        | apply decode_block_length
        | cbn; apply lookup_insert_eq
        | apply decode_block_length
        | eexists r3, l, x; rewrite Hf ]
    end.
    split; [reflexivity |]. split; [exact Hl |]. split; [exact Hx |].
    cbn [Resampling.lruSrcBlocks Resampling.set_cache Resampling.srcBufL
         Resampling.srcBufR Resampling.srcBlock Resampling.set_source Resampling.source].
    split; [reflexivity |]. split; [reflexivity |]. split; [reflexivity |].
    split; [apply lookup_insert_eq |]. split; [apply lookup_insert_eq |].
    intros k Hk. cbn [andb].
    rewrite !lookup_insert_ne by congruence. split; reflexivity.
Qed.


(** ** No call reaches [panic("not reach")] *)

Lemma src_blocks_full (fuel : nat) (i : Z) (r : Stream') :
  blocks_full r -> blocks_full (fst (Resampling.src fuel i r)).
Proof.
  intros Hfull. unfold Resampling.src.
  destruct (i <? 0); [exact Hfull |].
  destruct (Int.div (Resampling.size r) 4 <=? i); [exact Hfull |].
  set (np := Int.div i Resampling.resamplingBufferSize).
  destruct (Resampling.srcBufL r !! np) as [blk |] eqn:Hblk.
  - cbn [Resampling.srcBlock Resampling.lruSrcBlocks Resampling.set_cache
         Resampling.srcBufL Resampling.srcBufR].
    destruct (Resampling.index_of np (Resampling.lruSrcBlocks r)); exact Hfull.
  - destruct (Resampling.seek_block r np) as [s1 [e |]]; cbn [fst]; [exact Hfull |].
    destruct (Resampling.read_block fuel s1 []) as [s2 [buf | e | |]]; cbn [fst];
      try exact Hfull.
    destruct (Resampling.evict _) as [r2 |] eqn:Hev; [| destruct (evict_None _ Hev)].
    exact (blocks_full_insert (Resampling.set_source r s2) np buf r2 Hfull Hev).
Qed.

Lemma src_cache_ok (fuel : nat) (i : Z) (r : Stream') :
  cache_ok r -> cache_ok (fst (Resampling.src fuel i r)).
Proof.
  intros [Hinv Hfull]. split.
  - (* [src] converts no float: any conversion will do here *)
    apply (src_inv (fun _ _ => 0) fuel i r Hinv).
  - apply src_blocks_full, Hfull.
Qed.

(** What [src] preserves, [at], [Read] and [Seek] preserve: they change the
    cache through [src] only. *)
Section Preserved.

Variable P : Stream' -> Prop.
Hypothesis P_src :
  forall (fuel : nat) (i : Z) (r : Stream'), P r -> P (fst (Resampling.src fuel i r)).
Hypothesis P_pos : forall (r : Stream') (p : Z), P r -> P (Resampling.set_pos r p).

Lemma at_loop_preserves (fuel : nat) (tsrc : float) (k : nat) :
  forall (n : Z) (lv rv : float) (r : Stream'),
    P r -> P (fst (Resampling.at_loop math_Cos cvt fuel tsrc k n lv rv r)).
Proof.
  induction k as [| k IH]; intros n lv rv r HP; cbn [Resampling.at_loop];
    [exact HP |].
  pose proof (P_src fuel n r HP) as HP1.
  destruct (Resampling.src fuel n r) as [r1 [[srcL srcR] | e | |]]; cbn [fst] in *;
    try exact HP1.
  destruct (Resampling.weight math_Cos cvt tsrc n) as [w |]; cbn [fst];
    [apply IH, HP1 | exact HP1].
Qed.

Lemma at_preserves (fuel : nat) (t : Z) (r : Stream') :
  P r -> P (fst (Resampling.at_ math_Cos cvt fuel t r)).
Proof.
  intros HP. unfold Resampling.at_.
  pose proof (at_loop_preserves fuel (Resampling.tInSrc r t)
                (Z.to_nat (Resampling.endN cvt r t - Resampling.startN cvt r t + 1))
                (Resampling.startN cvt r t) 0%float 0%float r HP) as Hl.
  destruct (Resampling.at_loop _ _ _ _ _ _ _ _ _) as [r1 [[lv rv] | e | |]];
    exact Hl.
Qed.

Lemma read_loop_preserves (fuel : nat) (k : nat) :
  forall (i : nat) (b : list byte) (r : Stream'),
    P r -> P (fst (Resampling.read_loop math_Cos cvt fuel k i b r)).
Proof.
  induction k as [| k IH]; intros i b r HP; cbn [Resampling.read_loop];
    [exact HP |].
  pose proof (at_preserves fuel
                (Int.int64 (Int.div (Resampling.pos r) 4 + Z.of_nat i)) r HP) as HP1.
  destruct (Resampling.at_ math_Cos cvt fuel _ r) as [r1 [[l r_] | e | |]];
    cbn [fst] in *; try exact HP1.
  destruct (store4 b i _ _ _ _) as [b' |]; cbn [fst]; [apply IH, HP1 | exact HP1].
Qed.

Lemma Read_preserves (fuel : nat) (b : list byte) (r : Stream') :
  P r -> P (fst (Resampling.Read math_Cos cvt fuel b r)).
Proof.
  intros HP. unfold Resampling.Read.
  destruct (Resampling.pos r =? Resampling.Length cvt r); [exact HP |].
  match goal with
  | |- context [Resampling.read_loop math_Cos cvt fuel ?k 0 b r] =>
      pose proof (read_loop_preserves fuel k 0%nat b r HP) as Hl;
      destruct (Resampling.read_loop math_Cos cvt fuel k 0 b r)
        as [r1 [b' [u | e | |]]]
  end; cbn [fst] in *; try exact Hl.
  apply P_pos, Hl.
Qed.

Lemma run_preserves (fuel : nat) (ops : list op) :
  forall r : Stream', P r -> P (run math_Cos cvt fuel ops r).
Proof.
  induction ops as [| o ops IH]; intros r HP; [exact HP |].
  cbn [run fold_left]. apply IH.
  destruct o as [i | b | offset whence]; cbn [step].
  - apply P_src, HP.
  - apply Read_preserves, HP.
  - apply P_pos, HP.
Qed.

End Preserved.

Lemma run_cache_ok (fuel : nat) (ops : list op) (s : Src) (size_ from_ to_ : Z) :
  cache_ok (run math_Cos cvt fuel ops (Resampling.NewResampling s size_ from_ to_)).
Proof.
  apply (run_preserves cache_ok).
  - intros fuel' i r. apply src_cache_ok.
  - intros r p Hok. exact Hok.
  - split; [apply NewResampling_cache_inv |].
    split; intros k blk Hk; cbn in Hk; rewrite lookup_empty in Hk; discriminate Hk.
Qed.

(** X9.  Over a source whose [Read] reports no more bytes than the slice
    it was given holds, no sequence of [src], [Read] and [Seek] calls on a
    new stream, whatever their outcomes, brings [src] to a panic: neither
    [panic("not reach")] of line 140 nor an index out of range in lines
    112-146 is reachable.  The call returns the samples or the source's
    error (or the block read never ends). *)
Theorem src_never_panics (fuel : nat) (ops : list op) (s : Src)
    (size_ from_ to_ : Z) (i : Z) :
  reads_within_slice ->
  snd (Resampling.src fuel i
         (run math_Cos cvt fuel ops (Resampling.NewResampling s size_ from_ to_)))
  <> Panic.
Proof.
  intros Hsrc.
  pose proof (run_cache_ok fuel ops s size_ from_ to_) as Hok.
  set (r := run math_Cos cvt fuel ops (Resampling.NewResampling s size_ from_ to_)) in *.
  clearbody r.
  destruct Hok as [(Hlen & Hnd & HdL & HdR) [HfL HfR]].
  unfold Resampling.src, Int.div, Resampling.resamplingBufferSize.
  destruct (Z.ltb_spec i 0); [discriminate |].
  destruct (Z.leb_spec (Z.quot (Resampling.size r) 4) i); [discriminate |].
  cbv zeta. set (np := Z.quot i 4096).
  destruct (Resampling.srcBufL r !! np) as [bl |] eqn:Hbl.
  - assert (Hin : np ∈ Resampling.lruSrcBlocks r).
    { assert (Hd : np ∈ dom (Resampling.srcBufL r)) by (apply elem_of_dom; eauto).
      rewrite HdL in Hd. apply elem_of_list_to_set in Hd. exact Hd. }
    assert (HinR : is_Some (Resampling.srcBufR r !! np)).
    { apply elem_of_dom. rewrite HdR. apply elem_of_list_to_set. exact Hin. }
    destruct HinR as [br Hbr].
    destruct (index_of_member np _ Hin) as [idx Hidx].
    cbn [Resampling.srcBlock Resampling.lruSrcBlocks Resampling.set_cache
         Resampling.srcBufL Resampling.srcBufR].
    rewrite Hidx. cbn [snd].
    match goal with
    | |- Resampling.fetch ?r' i <> Panic =>
        destruct (fetch_resident r' i bl br) as (l & x & _ & _ & Hf);
        [lia | exact Hbl | exact (HfL _ _ Hbl) | exact Hbr | exact (HfR _ _ Hbr) |];
        rewrite Hf; discriminate
    end.
  - destruct (Resampling.seek_block r np) as [s1 [e |]]; cbn [snd]; [discriminate |].
    pose proof (read_block_within Hsrc fuel s1 [] ltac:(cbn; lia)) as [Hnp _].
    destruct (Resampling.read_block fuel s1 []) as [s2 [buf | e | |]]; cbn [snd] in *;
      [| discriminate | congruence | discriminate].
    destruct (Resampling.evict _) as [r2 |] eqn:Hev; [| destruct (evict_None _ Hev)].
    cbn [snd].
    assert (Hnp2 : Resampling.srcBlock r2 = np
                   /\ Resampling.srcBufL r2 !! np = Some (Resampling.decode_block 0 buf)
                   /\ Resampling.srcBufR r2 !! np = Some (Resampling.decode_block 2 buf)).
    { assert (Hfresh : np ∉ Resampling.lruSrcBlocks r).
      { intros Hin. apply not_elem_of_dom in Hbl. apply Hbl.
        rewrite HdL. apply elem_of_list_to_set. exact Hin. }
      unfold Resampling.evict in Hev.
      cbn [Resampling.lruSrcBlocks Resampling.set_cache Resampling.srcBufL
           Resampling.srcBufR Resampling.srcBlock Resampling.set_source] in Hev.
      destruct (4 <=? length (Resampling.lruSrcBlocks r))%nat.
      - destruct (Resampling.lruSrcBlocks r) as [| p rest]; [discriminate Hev |].
        apply not_elem_of_cons in Hfresh as [Hne _].
        injection Hev as Hev; subst r2. cbn.
        rewrite !lookup_delete_ne by congruence.
        rewrite !lookup_insert_eq. repeat split.
      - injection Hev as Hev; subst r2. cbn.
        rewrite !lookup_insert_eq. repeat split. }
    destruct Hnp2 as (Hb & HL2 & HR2).
    match goal with
    | |- Resampling.fetch ?r' i <> Panic =>
        destruct (fetch_resident r' i (Resampling.decode_block 0 buf)
                    (Resampling.decode_block 2 buf)) as (l & x & _ & _ & Hf);
        [lia
        | cbn; rewrite Hb; exact HL2
        | apply decode_block_length
        | cbn; rewrite Hb; exact HR2
        | apply decode_block_length |];
        rewrite Hf; discriminate
    end.
Qed.


(** ** The source position after a cache hit *)

(** A hit makes the block the current one and leaves source and maps. *)
Lemma src_hit_state (fuel : nat) (i : Z) (r : Stream') (bl : list float) :
  0 <= i < Int.div (Resampling.size r) 4 ->
  Resampling.srcBufL r !! Z.quot i 4096 = Some bl ->
  let r1 := fst (Resampling.src fuel i r) in
  Resampling.srcBlock r1 = Z.quot i 4096
  /\ Resampling.source r1 = Resampling.source r
  /\ Resampling.srcBufL r1 = Resampling.srcBufL r
  /\ Resampling.srcBufR r1 = Resampling.srcBufR r
  /\ Resampling.size r1 = Resampling.size r.
Proof.
  intros Hi Hbl. unfold Resampling.src, Int.div, Resampling.resamplingBufferSize.
  destruct (Z.ltb_spec i 0); [lia |].
  destruct (Z.leb_spec (Z.quot (Resampling.size r) 4) i); [unfold Int.div in Hi; lia |].
  cbv zeta. rewrite Hbl.
  cbn [Resampling.srcBlock Resampling.lruSrcBlocks Resampling.set_cache
       Resampling.srcBufL Resampling.srcBufR].
  destruct (Resampling.index_of _ _); cbn; repeat split.
Qed.

(** The load of a block that is not resident, as one equation. *)
Lemma src_miss_eq (fuel : nat) (i : Z) (r : Stream') (s1 s2 : Src) (buf : list byte) :
  0 <= i < Int.div (Resampling.size r) 4 ->
  Resampling.srcBufL r !! Z.quot i 4096 = None ->
  Resampling.seek_block r (Z.quot i 4096) = (s1, None) ->
  Resampling.read_block fuel s1 [] = (s2, Ok buf) ->
  Resampling.src fuel i r
  = match Resampling.evict
            (Resampling.set_cache (Resampling.set_source r s2) (Z.quot i 4096)
               (<[Z.quot i 4096 := Resampling.decode_block 0 buf]> (Resampling.srcBufL r))
               (<[Z.quot i 4096 := Resampling.decode_block 2 buf]> (Resampling.srcBufR r))
               (Resampling.lruSrcBlocks r)) with
    | Some r2 =>
        let r3 := Resampling.set_cache r2 (Resampling.srcBlock r2)
                    (Resampling.srcBufL r2) (Resampling.srcBufR r2)
                    (Resampling.lruSrcBlocks r2 ++ [Resampling.srcBlock r2]) in
        (r3, Resampling.fetch r3 i)
    | None =>
        (Resampling.set_cache (Resampling.set_source r s2) (Z.quot i 4096)
           (<[Z.quot i 4096 := Resampling.decode_block 0 buf]> (Resampling.srcBufL r))
           (<[Z.quot i 4096 := Resampling.decode_block 2 buf]> (Resampling.srcBufR r))
           (Resampling.lruSrcBlocks r), Panic)
    end.
Proof.
  intros Hi Hnone Hseek Hread.
  unfold Resampling.src, Int.div, Resampling.resamplingBufferSize.
  destruct (Z.ltb_spec i 0); [lia |].
  destruct (Z.leb_spec (Z.quot (Resampling.size r) 4) i); [unfold Int.div in Hi; lia |].
  cbv zeta. unfold Resampling.resamplingBufferSize in Hseek.
  rewrite Hnone, Hseek, Hread. reflexivity.
Qed.

(** The block just inserted survives the eviction: it is not in the list. *)
Lemma evict_keeps_inserted (r r2 : Stream') (np : Z) (a b : list float) :
  cache_inv r ->
  Resampling.srcBufL r !! np = None ->
  Resampling.evict
    (Resampling.set_cache r np (<[np := a]> (Resampling.srcBufL r))
       (<[np := b]> (Resampling.srcBufR r)) (Resampling.lruSrcBlocks r)) = Some r2 ->
  Resampling.srcBlock r2 = np
  /\ Resampling.source r2 = Resampling.source r
  /\ Resampling.srcBufL r2 !! np = Some a
  /\ Resampling.srcBufR r2 !! np = Some b.
Proof.
  intros (Hlen & Hnd & HdL & HdR) Hnone Hev.
  assert (Hfresh : np ∉ Resampling.lruSrcBlocks r).
  { intros Hin. apply not_elem_of_dom in Hnone. apply Hnone.
    rewrite HdL. apply elem_of_list_to_set. exact Hin. }
  unfold Resampling.evict in Hev.
  cbn [Resampling.lruSrcBlocks Resampling.set_cache Resampling.srcBufL
       Resampling.srcBufR Resampling.srcBlock Resampling.set_source] in Hev.
  destruct (4 <=? length (Resampling.lruSrcBlocks r))%nat.
  - destruct (Resampling.lruSrcBlocks r) as [| p rest]; [discriminate Hev |].
    apply not_elem_of_cons in Hfresh as [Hne _].
    injection Hev as Hev; subst r2. cbn.
    rewrite !lookup_delete_ne by congruence.
    rewrite !lookup_insert_eq. repeat split.
  - injection Hev as Hev; subst r2. cbn.
    rewrite !lookup_insert_eq. repeat split.
Qed.

(** X10.  The source is repositioned only when the block wanted does not
    follow [srcBlock], and a cache hit sets [srcBlock] without moving the
    source.  So after a hit on block [k], a load of block [k + 1] calls no
    [Seek]: the block is read from wherever the source stands (the end of the
    block loaded last, which need not be block [k]) and is cached as block
    [k + 1]. *)
Theorem load_after_hit_skips_seek (fuel : nat) (i j : Z) (r : Stream')
    (bl : list float) (s2 : Src) (buf : list byte) :
  cache_ok r ->
  0 <= i < Int.div (Resampling.size r) 4 ->
  0 <= j < Int.div (Resampling.size r) 4 ->
  j <= Int.max_int64 ->
  Z.quot j 4096 = Z.quot i 4096 + 1 ->
  Resampling.srcBufL r !! Z.quot i 4096 = Some bl ->
  Resampling.srcBufL r !! Z.quot j 4096 = None ->
  Resampling.read_block fuel (Resampling.source r) [] = (s2, Ok buf) ->
  exists (r2 : Stream') (l x : float),
    Resampling.src fuel j (fst (Resampling.src fuel i r)) = (r2, Ok (l, x))
    /\ Resampling.source r2 = s2
    /\ Resampling.srcBufL r2 !! Z.quot j 4096 = Some (Resampling.decode_block 0 buf)
    /\ Resampling.srcBufR r2 !! Z.quot j 4096 = Some (Resampling.decode_block 2 buf)
    /\ Resampling.decode_block 0 buf !! Z.to_nat (Z.rem j 4096) = Some l
    /\ Resampling.decode_block 2 buf !! Z.to_nat (Z.rem j 4096) = Some x.
Proof.
  intros Hok Hi Hj Hmax Hnext Hbl Hnone Hread.
  pose proof (src_cache_ok fuel i r Hok) as [Hinv1 _].
  destruct (src_hit_state fuel i r bl Hi Hbl) as (Hblock & Hsource & HL & HR & Hsize).
  set (r1 := fst (Resampling.src fuel i r)) in *.
  assert (Hseek : Resampling.seek_block r1 (Z.quot j 4096) = (Resampling.source r, None)).
  { unfold Resampling.seek_block. rewrite Hblock, Hsource, <- Hnext.
    rewrite int64_id, Z.eqb_refl; [reflexivity |].
    unfold Int.max_int64 in Hmax.
    pose proof (Z.quot_pos j 4096 ltac:(lia) ltac:(lia)).
    pose proof (Z.quot_le_upper_bound j 4096 (2 ^ 63 - 1) ltac:(lia) ltac:(lia)).
    lia. }
  rewrite <- HL in Hnone.
  rewrite (src_miss_eq fuel j r1 (Resampling.source r) s2 buf);
    [| rewrite Hsize; exact Hj | exact Hnone | exact Hseek | exact Hread].
  destruct (Resampling.evict _) as [r2 |] eqn:Hev; [| destruct (evict_None _ Hev)].
  destruct (evict_keeps_inserted (Resampling.set_source r1 s2) r2 (Z.quot j 4096)
              (Resampling.decode_block 0 buf) (Resampling.decode_block 2 buf))
    as (Hb2 & Hs2 & HL2 & HR2); [exact Hinv1 | exact Hnone | exact Hev |].
  cbv zeta.
  match goal with
  | |- context [Resampling.fetch ?r3 j] =>
      destruct (fetch_resident r3 j (Resampling.decode_block 0 buf)
                  (Resampling.decode_block 2 buf)) as (l & x & Hl & Hx & Hf);
      [lia
      | cbn; rewrite Hb2; exact HL2
      | apply decode_block_length
      | cbn; rewrite Hb2; exact HR2
      | apply decode_block_length
      | exists r3, l, x; rewrite Hf ]
  end.
  split; [reflexivity |].
  cbn [Resampling.source Resampling.set_cache Resampling.srcBufL Resampling.srcBufR].
  rewrite Hs2. repeat split; assumption.
Qed.

End CacheMore.

(** * A block load that fails, and one that meets the end of the source *)

Section LoadOutcome.

Context {Src : Type} `{ReadSeekCloser Src}.




End LoadOutcome.



(** * The block read loop *)

Section BlockRead.

Context {Src : Type} `{ReadSeekCloser Src}.

(** A source that makes progress: a [Read] into a slice that is not empty
    returns an error or at least one byte. *)
Definition read_progresses : Prop :=
  forall (s : Src) (n : nat),
    (0 < n)%nat ->
    snd (snd (rsc_Read s n)) = None ->
    (0 < length (fst (snd (rsc_Read s n))))%nat.

Lemma read_block_bounded (Hprog : read_progresses) (fuel : nat) :
  forall (s : Src) (acc : list byte),
    (Resampling.block_bytes - length acc < fuel)%nat ->
    snd (Resampling.read_block fuel s acc) <> Diverge.
Proof.
  induction fuel as [| fuel IH]; intros s acc Hfuel; [lia |].
  cbn [Resampling.read_block].
  destruct (Nat.ltb_spec (length acc) Resampling.block_bytes) as [Hlt | Hge].
  - pose proof (Hprog s (Resampling.block_bytes - length acc)%nat ltac:(lia)) as Hp.
    destruct (rsc_Read s (Resampling.block_bytes - length acc)%nat) as [s1 [data err]].
    cbn [fst snd] in Hp.
    destruct err as [[| c] |]; cbn [snd].
    + destruct (length (acc ++ data) <=? Resampling.block_bytes)%nat; discriminate.
    + discriminate.
    + specialize (Hp eq_refl). apply IH. rewrite length_app. lia.
  - cbn [snd]. destruct (length acc <=? Resampling.block_bytes)%nat; discriminate.
Qed.

(** X11.  Over a source that makes progress the loop of lines 102-111 ends
    after at most 16384 calls of the source's [Read], one for each byte of the
    block at worst: with more fuel than that, [src] returns. *)
Theorem src_block_read_ends (fuel : nat) (i : Z) (r : Resampling.Resampling Src) :
  read_progresses ->
  (Resampling.block_bytes < fuel)%nat ->
  snd (Resampling.src fuel i r) <> Diverge.
Proof.
  intros Hprog Hfuel. unfold Resampling.src.
  destruct (i <? 0); [discriminate |].
  destruct (Int.div (Resampling.size r) 4 <=? i); [discriminate |].
  cbv zeta.
  destruct (Resampling.srcBufL r !! _) as [blk |].
  - cbn [Resampling.srcBlock Resampling.lruSrcBlocks Resampling.set_cache
         Resampling.srcBufL Resampling.srcBufR].
    destruct (Resampling.index_of _ _); cbn [snd]; [| discriminate].
    unfold Resampling.fetch.
    repeat match goal with
           | |- context [match ?x with _ => _ end] => destruct x
           end; discriminate.
  - destruct (Resampling.seek_block r _) as [s1 [e |]]; cbn [snd]; [discriminate |].
    pose proof (read_block_bounded Hprog fuel s1 [] ltac:(cbn [length]; lia)) as Hb.
    destruct (Resampling.read_block fuel s1 []) as [s2 [buf | e | |]]; cbn [snd] in *;
      [| discriminate | discriminate | congruence].
    destruct (Resampling.evict _) as [r2 |]; cbn [snd]; [| discriminate].
    unfold Resampling.fetch.
    repeat match goal with
           | |- context [match ?x with _ => _ end] => destruct x
           end; discriminate.
Qed.

(** X12.  Nothing bounds the loop of lines 102-111 but the source: over a
    source that keeps answering [0, nil] the load of a block never ends,
    whatever the fuel. *)
Theorem src_spins_on_stalled_source (i : Z) (r : Resampling.Resampling Src) (s1 : Src) :
  0 <= i < Int.div (Resampling.size r) 4 ->
  Resampling.srcBufL r !! Z.quot i 4096 = None ->
  Resampling.seek_block r (Z.quot i 4096) = (s1, None) ->
  (forall n : nat, rsc_Read s1 n = (s1, ([], None))) ->
  forall fuel : nat,
    Resampling.src fuel i r = (Resampling.set_source r s1, Diverge).
Proof.
  intros Hi Hnone Hseek Hstall fuel.
  assert (Hloop : forall acc : list byte,
             (length acc < Resampling.block_bytes)%nat ->
             Resampling.read_block fuel s1 acc = (s1, Diverge)).
  { induction fuel as [| fuel IH]; intros acc Hacc; [reflexivity |].
    cbn [Resampling.read_block].
    apply Nat.ltb_lt in Hacc. rewrite Hacc. apply Nat.ltb_lt in Hacc.
    rewrite Hstall, app_nil_r. apply IH, Hacc. }
  unfold Resampling.src, Int.div, Resampling.resamplingBufferSize.
  destruct (Z.ltb_spec i 0); [lia |].
  destruct (Z.leb_spec (Z.quot (Resampling.size r) 4) i); [unfold Int.div in Hi; lia |].
  cbv zeta. unfold Resampling.resamplingBufferSize in Hseek.
  rewrite Hnone, Hseek, Hloop; [reflexivity |].
  cbn [length]. unfold Resampling.block_bytes, Resampling.resamplingBufferSize. lia.
Qed.

End BlockRead.

(** * What a read of the resampled stream returns *)

Lemma store_Some (b b' : list byte) (k : nat) (v : byte) :
  store b k v = Some b' -> (k < length b)%nat /\ b' = <[k := v]> b.
Proof.
  unfold store. destruct (Nat.ltb_spec k (length b)); [| discriminate].
  intros [= <-]. split; [assumption | reflexivity].
Qed.

Lemma store4_Some (b b' : list byte) (i : nat) (v0 v1 v2 v3 : byte) :
  store4 b i v0 v1 v2 v3 = Some b' ->
  (4 * i + 3 < length b)%nat
  /\ length b' = length b
  /\ forall j : nat, (j < 4 * i)%nat \/ (4 * i + 4 <= j)%nat -> b' !! j = b !! j.
Proof.
  unfold store4. intros Hst.
  apply bind_Some in Hst as (b0 & H0 & Hst).
  apply bind_Some in Hst as (b1 & H1 & Hst).
  apply bind_Some in Hst as (b2 & H2 & Hst).
  apply store_Some in H0 as [L0 ->], H1 as [L1 ->], H2 as [L2 ->],
    Hst as [L3 ->].
  rewrite !length_insert in *.
  split; [exact L3 |]. split; [reflexivity |].
  intros j Hj. rewrite !list_lookup_insert_ne by lia. reflexivity.
Qed.

Section ReadMore.

Context {Src : Type} `{ReadSeekCloser Src}.
Variable math_Cos : float -> float.
Variable cvt : Z -> float -> Z.

Lemma read_loop_Ok (fuel : nat) (k : nat) :
  forall (i : nat) (b b' : list byte) (r r' : Resampling.Resampling Src) (u : unit),
    Resampling.read_loop math_Cos cvt fuel k i b r = (r', (b', Ok u)) ->
    length b' = length b
    /\ forall j : nat,
        (j < 4 * i)%nat \/ (4 * (i + k) <= j)%nat -> b' !! j = b !! j.
Proof.
  induction k as [| k IH]; intros i b b' r r' u Hloop; cbn [Resampling.read_loop] in Hloop.
  - injection Hloop as _ <-. split; reflexivity.
  - destruct (Resampling.at_ math_Cos cvt fuel _ r) as [r1 [[l r_] | e | |]];
      try discriminate Hloop.
    destruct (store4 b i _ _ _ _) as [b1 |] eqn:Hst; [| discriminate Hloop].
    apply store4_Some in Hst as (_ & Hlen1 & Hout1).
    apply IH in Hloop as [Hlen Hout].
    split; [congruence |].
    intros j Hj. rewrite Hout by lia. apply Hout1. lia.
Qed.

(** X13.  A successful [Read] with the cursor in [0, Length()]: the count
    returned is the smaller of [len(b)] rounded down to whole frames and of
    what is left of the stream, the cursor advances by exactly that count,
    the buffer keeps its length, and no byte from the last whole frame of the
    count on is written.  (The count is a whole number of frames unless the
    cursor was left unaligned by [Seek]; the frames written are [n / 4].) *)
Theorem Read_count_and_cursor (fuel : nat) (b b' : list byte)
    (r r' : Resampling.Resampling Src) (n : Z) :
  0 <= Resampling.pos r <= Resampling.Length cvt r ->
  Resampling.Read math_Cos cvt fuel b r = (r', (b', Ok n)) ->
  n = Z.min (Int.div (Z.of_nat (length b)) 4 * 4)
            (Resampling.Length cvt r - Resampling.pos r)
  /\ 0 <= n <= Z.of_nat (length b)
  /\ Resampling.pos r' = Resampling.pos r + n
  /\ Resampling.Length cvt r' = Resampling.Length cvt r
  /\ length b' = length b
  /\ forall j : nat, (Z.to_nat (Int.div n 4 * 4) <= j)%nat -> b' !! j = b !! j.
Proof.
  intros Hpos Hread. unfold Resampling.Read in Hread.
  destruct (Resampling.pos r =? Resampling.Length cvt r); [discriminate Hread |].
  pose proof (Length_range cvt r) as HL.
  rewrite (int64_id (Resampling.Length cvt r - Resampling.pos r)) in Hread by lia.
  set (n0 := Int.div (Z.of_nat (length b)) 4 * 4) in *.
  assert (Hn0 : 0 <= n0 <= Z.of_nat (length b)).
  { subst n0. unfold Int.div.
    pose proof (Z.quot_pos (Z.of_nat (length b)) 4 ltac:(lia) ltac:(lia)).
    pose proof (Z.mul_quot_le (Z.of_nat (length b)) 4 ltac:(lia) ltac:(lia)). lia. }
  set (m := if Resampling.Length cvt r - Resampling.pos r <=? n0
            then Resampling.Length cvt r - Resampling.pos r else n0) in *.
  assert (Hm : m = Z.min n0 (Resampling.Length cvt r - Resampling.pos r)).
  { subst m. destruct (Z.leb_spec (Resampling.Length cvt r - Resampling.pos r) n0); lia. }
  pose proof (read_loop_same_stream math_Cos cvt fuel (Z.to_nat (Int.div m 4)) 0 b r)
    as (Hsz & Hfrom & Hto & Hp).
  destruct (Resampling.read_loop math_Cos cvt fuel (Z.to_nat (Int.div m 4)) 0 b r)
    as [r1 [b1 [u | e | |]]] eqn:Hloop; try discriminate Hread.
  injection Hread as <- <- <-. cbn [fst] in *.
  apply read_loop_Ok in Hloop as [Hlen Hout].
  split; [exact Hm |]. split; [lia |].
  split; [cbn [Resampling.pos Resampling.set_pos]; rewrite Hp, int64_id by lia;
          reflexivity |].
  split.
  { unfold Resampling.Length.
    cbn [Resampling.size Resampling.from Resampling.to Resampling.set_pos].
    rewrite Hsz, Hfrom, Hto. reflexivity. }
  split; [exact Hlen |].
  intros j Hj. apply Hout. right.
  unfold Int.div in *.
  pose proof (Z.quot_pos m 4 ltac:(lia) ltac:(lia)). lia.
Qed.

(** X14.  A [Read] that does not succeed, whether the source failed, the
    stream was at its end, or the call did not return, leaves the cursor
    where it was and the stream's size and rates as they were, and the
    buffer keeps its length. *)
Theorem Read_failure_keeps_cursor (fuel : nat) (b : list byte)
    (r : Resampling.Resampling Src) :
  (forall n : Z, snd (snd (Resampling.Read math_Cos cvt fuel b r)) <> Ok n) ->
  same_stream r (fst (Resampling.Read math_Cos cvt fuel b r)).
Proof.
  intros Hfail. unfold Resampling.Read in *.
  destruct (Resampling.pos r =? Resampling.Length cvt r);
    [apply same_stream_refl |].
  match type of Hfail with
  | context [Resampling.read_loop math_Cos cvt fuel ?k 0 b r] =>
      pose proof (read_loop_same_stream math_Cos cvt fuel k 0%nat b r) as Hs;
      destruct (Resampling.read_loop math_Cos cvt fuel k 0 b r)
        as [r1 [b1 [u | e | |]]]
  end; cbn [fst snd] in *; try exact Hs.
  exfalso. eapply Hfail. reflexivity.
Qed.

End ReadMore.

(** * Samples and their bytes *)

Lemma to_byte_byte_val (x : byte) : to_byte (byte_val x) = x.
Proof. destruct x; reflexivity. Qed.

Lemma to_byte_mod (z : Z) : to_byte (z mod 256) = to_byte z.
Proof.
  unfold to_byte, Int.uint8. rewrite Z.mod_mod by lia. reflexivity.
Qed.

(** X15.  The two bytes [Read] stores for a 16-bit sample (lines 206-209)
    are read back by [src] (lines 116-117) as the same sample: little-endian
    two's complement, for every integer cut to 16 bits. *)
Theorem sample16_of_stored_bytes (v : Z) :
  sample16 (to_byte v) (to_byte (Z.shiftr v 8)) = Int.int16 v.
Proof.
  assert (Hall : all_from
                   (fun u => sample16 (to_byte u) (to_byte (Z.shiftr u 8))
                             =? Int.int16 u) 0 (Z.to_nat 65536) = true)
    by (vm_compute; reflexivity).
  pose proof (all_from_spec _ _ _ Hall (v mod 65536)) as Hu. cbv beta in Hu.
  pose proof (Z.mod_pos_bound v 65536 ltac:(lia)) as Hb.
  specialize (Hu ltac:(lia)). apply Z.eqb_eq in Hu.
  assert (H1 : to_byte (v mod 65536) = to_byte v).
  { rewrite <- (to_byte_mod (v mod 65536)), <- (to_byte_mod v).
    f_equal. symmetry. apply Znumtheory.Zmod_div_mod; [lia | lia |].
    exists 256. reflexivity. }
  assert (H2 : to_byte (Z.shiftr (v mod 65536) 8) = to_byte (Z.shiftr v 8)).
  { rewrite <- (to_byte_mod (Z.shiftr (v mod 65536) 8)), <- (to_byte_mod (Z.shiftr v 8)).
    f_equal. rewrite !Z.shiftr_div_pow2 by lia. change (2 ^ 8) with 256.
    rewrite (Z.div_mod v 65536) at 2 by lia.
    change 65536 with (256 * 256) at 2.
    replace (256 * 256 * (v / 65536) + v mod 65536)
      with (v mod 65536 + (256 * (v / 65536)) * 256) by lia.
    rewrite Z.div_add by lia.
    rewrite Z.add_mod by lia. rewrite Z.mul_comm, Z.mod_mul by lia.
    rewrite Z.add_0_r. rewrite Z.mod_mod by lia. reflexivity. }
  assert (H3 : Int.int16 (v mod 65536) = Int.int16 v).
  { unfold Int.int16, Int.wrap. change (2 ^ 16) with 65536.
    rewrite Z.mod_mod by lia. reflexivity. }
  rewrite <- H1, <- H2, <- H3. exact Hu.
Qed.

(** X16.  The sample [src] decodes from two bytes (lines 116-117) is the
    little-endian two's-complement value of the pair: it lies in
    [-32768, 32767], and storing it the way [Read] does gives the two bytes
    back. *)
Theorem stored_bytes_of_sample16 (lo hi : byte) :
  sample16 lo hi
  = byte_val lo + 256 * byte_val hi - (if 128 <=? byte_val hi then 65536 else 0)
  /\ - 32768 <= sample16 lo hi <= 32767
  /\ to_byte (sample16 lo hi) = lo
  /\ to_byte (Z.shiftr (sample16 lo hi) 8) = hi.
Proof.
  pose (chk := fun a c : Z =>
          let v := sample16 (to_byte a) (to_byte c) in
          (v =? a + 256 * c - (if 128 <=? c then 65536 else 0))
          && (- 32768 <=? v) && (v <=? 32767)
          && (byte_val (to_byte v) =? a)
          && (byte_val (to_byte (Z.shiftr v 8)) =? c)).
  assert (Hall : all_from (fun a => all_from (chk a) 0 (Z.to_nat 256)) 0 (Z.to_nat 256)
                 = true) by (vm_compute; reflexivity).
  pose proof (byte_val_range lo) as Hlo. pose proof (byte_val_range hi) as Hhi.
  pose proof (all_from_spec _ _ _ Hall (byte_val lo) ltac:(lia)) as Ha. cbv beta in Ha.
  pose proof (all_from_spec _ _ _ Ha (byte_val hi) ltac:(lia)) as Hc.
  unfold chk in Hc. cbv zeta in Hc. rewrite !to_byte_byte_val in Hc.
  repeat (apply andb_prop in Hc as [Hc ?]).
  apply Z.eqb_eq in Hc. 
  repeat match goal with
         | H : (_ <=? _) = true |- _ => apply Z.leb_le in H
         | H : (_ =? _) = true |- _ => apply Z.eqb_eq in H
         end.
  split; [exact Hc |]. split; [lia |].
  split.
  - match goal with
    | Hb : byte_val (to_byte (sample16 lo hi)) = _ |- _ =>
        apply (f_equal to_byte) in Hb; rewrite !to_byte_byte_val in Hb; exact Hb
    end.
  - match goal with
    | Hb : byte_val (to_byte (Z.shiftr (sample16 lo hi) 8)) = _ |- _ =>
        apply (f_equal to_byte) in Hb; rewrite !to_byte_byte_val in Hb; exact Hb
    end.
Qed.

(** * Arguments the fast cosine cannot take *)

(** X17.  [fastCos01] has no guard against an argument whose scaled
    magnitude [262144 * |x|] is not a number, is infinite, or is 2^63 or more:
    the conversion to [int] then yields -2^63 on amd64, no branch of lines
    22-36 changes it, and line 40 indexes the table with it: the call panics
    with an index out of range. *)
Theorem fastCos01_panics_beyond_int (math_Cos : float -> float) (x : float) :
  match F64.trunc (262144 * (if (x <? 0)%float then (- x)%float else x))%float with
  | Some z => 2 ^ 63 <= z
  | None => True
  end ->
  fastCos01 math_Cos F64.amd64 x = None.
Proof.
  intros Hbig.
  assert (Hphase : phase F64.amd64 x = - 2 ^ 63).
  { unfold phase, F64.to_int.
    destruct (F64.trunc _) as [z |].
    - assert (Hin : Int.in_int 64 z = false).
      { unfold Int.in_int. apply andb_false_iff. right.
        apply Z.ltb_ge. exact Hbig. }
      rewrite Hin. reflexivity.
    - reflexivity. }
  unfold fastCos01. rewrite Hphase. reflexivity.
Qed.

Lemma fastCos01_panics_beyond_int_witness :
  fastCos01 cos_poly F64.amd64 nan = None
  /\ fastCos01 cos_poly F64.amd64 infinity = None
  /\ fastCos01 cos_poly F64.amd64 0x1p+45%float = None.
Proof.
  split; [| split]; apply fastCos01_panics_beyond_int; vm_compute.
  - exact I.
  - exact I.
  - discriminate.
Defined.

(** * The WAV data stream (package wav)

    [wav.Decode] hands the converters of package convert a [stream]: the
    source file, limited to its "data" chunk. *)

Module Wav.

Section Def.

Context {Src : Type} `{ReadSeekCloser Src}.

Record stream : Type := {
  src : Src;
  headerSize : Z;
  dataSize : Z;
  remaining : Z
}.

Definition set_src (s : stream) (x : Src) : stream :=
  {| src := x; headerSize := headerSize s; dataSize := dataSize s;
     remaining := remaining s |}.

Definition set_remaining (s : stream) (x : Src) (rem : Z) : stream :=
  {| src := x; headerSize := headerSize s; dataSize := dataSize s;
     remaining := rem |}.

(** [fmt.Errorf("wav: invalid offset")]: an error that is not [io.EOF]. *)
Definition invalid_offset : error := IOError 1.

(** [Read(p)] with [len(p) = n]. *)
Definition Read (s : stream) (n : nat) : stream * (list byte * option error) :=
  if remaining s <=? 0 then (s, ([], Some EOF))
  else
    let n := if remaining s <? Z.of_nat n then Z.to_nat (remaining s) else n in
    let '(x, (data, err)) := rsc_Read (src s) n in
    (set_remaining s x (Int.int64 (remaining s - Z.of_nat (length data))),
     (data, err)).

(** The [switch] of [Seek]: the offset and whence passed to the source. *)
Definition seek_args (s : stream) (offset whence : Z) : Z * Z :=
  if whence =? SeekStart then (Int.int64 (offset + headerSize s), whence)
  else if whence =? SeekCurrent then (offset, whence)
  else if whence =? SeekEnd then
    (Int.int64 (Int.int64 (headerSize s + dataSize s) + offset), SeekStart)
  else (offset, whence).

Definition Seek (s : stream) (offset whence : Z) : stream * (Z * option error) :=
  let '(offset, whence) := seek_args s offset whence in
  let '(x, (n, err)) := rsc_Seek (src s) offset whence in
  match err with
  | Some e => (set_src s x, (0, Some e))
  | None =>
      if Int.int64 (n - headerSize s) <? 0
      then (set_src s x, (0, Some invalid_offset))
      else
        let rem := Int.int64 (dataSize s - Int.int64 (n - headerSize s)) in
        if rem <? 0 then (set_remaining s x 0, (dataSize s, None))
        else (set_remaining s x rem, (Int.int64 (n - headerSize s), None))
  end.

Definition Close (s : stream) : stream * option error :=
  let '(x, e) := rsc_Close (src s) in (set_src s x, e).

Definition Length (s : stream) : Z := dataSize s.

End Def.

Arguments stream Src : clear implicits.

End Wav.

(** The stream is itself a source for the converters. *)
#[export] Instance wav_stream_rsc {Src : Type} `{ReadSeekCloser Src}
    : ReadSeekCloser (Wav.stream Src) :=
  {| rsc_Read := Wav.Read; rsc_Seek := Wav.Seek; rsc_Close := Wav.Close |}.

Section WavFacts.

Context {Src : Type} `{ReadSeekCloser Src}.

(** X18.  [stream.Read] never hands out more than is left of the data
    chunk: over a source that reports no more bytes than the slice holds, the
    bytes returned are at most [len(p)] and at most [remaining], [remaining]
    goes down by exactly their number and stays non-negative; once nothing
    remains the call answers [0, io.EOF] and does not touch the source. *)
Theorem wav_Read_within_remaining (s : Wav.stream Src) (n : nat) :
  reads_within_slice ->
  0 <= Wav.remaining s < 2 ^ 63 ->
  let '(s', (data, err)) := Wav.Read s n in
  (Z.of_nat (length data) <= Z.min (Z.of_nat n) (Wav.remaining s))
  /\ Wav.remaining s' = Wav.remaining s - Z.of_nat (length data)
  /\ 0 <= Wav.remaining s'
  /\ Wav.dataSize s' = Wav.dataSize s /\ Wav.headerSize s' = Wav.headerSize s
  /\ (Wav.remaining s = 0 -> s' = s /\ data = [] /\ err = Some EOF).
Proof.
  intros Hsrc Hrem. unfold Wav.Read.
  destruct (Z.leb_spec (Wav.remaining s) 0) as [Hz | Hpos].
  - cbn [length]. repeat split; try lia.
  - set (m := if Wav.remaining s <? Z.of_nat n then Z.to_nat (Wav.remaining s) else n).
    assert (Hm : Z.of_nat m = Z.min (Z.of_nat n) (Wav.remaining s)).
    { subst m. destruct (Z.ltb_spec (Wav.remaining s) (Z.of_nat n)); lia. }
    pose proof (Hsrc (Wav.src s) m) as Hlen.
    destruct (rsc_Read (Wav.src s) m) as [x [data err]]. cbn [fst snd] in Hlen.
    cbn [Wav.remaining Wav.set_remaining Wav.dataSize Wav.headerSize].
    rewrite int64_id by lia.
    repeat split; try lia.
Qed.

(** X19.  [stream.Seek] on a stream with [0 <= headerSize] and
    [0 <= dataSize], the source accepting the seek and reporting the absolute
    offset [n]: below the header size the call fails with "wav: invalid
    offset" and [remaining] keeps its old value although the source has
    moved; otherwise the position returned is [n - headerSize] cut to
    [dataSize], and [remaining] is what lies between it and the end of the
    data.  [io.SeekEnd] is passed on as an absolute offset from
    [headerSize + dataSize]. *)
Theorem wav_Seek_position (s : Wav.stream Src) (offset whence : Z) (x : Src) (n : Z) :
  0 <= Wav.headerSize s < 2 ^ 61 ->
  0 <= Wav.dataSize s < 2 ^ 61 ->
  0 <= n < 2 ^ 63 ->
  rsc_Seek (Wav.src s) (fst (Wav.seek_args s offset whence))
           (snd (Wav.seek_args s offset whence)) = (x, (n, None)) ->
  (whence = SeekEnd ->
   - 2 ^ 61 <= offset < 2 ^ 61 ->
   Wav.seek_args s offset whence
   = (Wav.headerSize s + Wav.dataSize s + offset, SeekStart))
  /\ (n < Wav.headerSize s ->
      Wav.Seek s offset whence = (Wav.set_src s x, (0, Some Wav.invalid_offset)))
  /\ (Wav.headerSize s <= n ->
      let p := Z.min (n - Wav.headerSize s) (Wav.dataSize s) in
      Wav.Seek s offset whence
      = (Wav.set_remaining s x (Wav.dataSize s - p), (p, None))).
Proof.
  intros Hh Hd Hn Hseek. split; [| split].
  - intros -> Hoff. unfold Wav.seek_args. cbn [Z.eqb SeekEnd SeekStart SeekCurrent].
    rewrite !int64_id by (try rewrite int64_id by lia; lia). reflexivity.
  - intros Hlt. unfold Wav.Seek.
    destruct (Wav.seek_args s offset whence) as [o w]. cbn [fst snd] in Hseek.
    rewrite Hseek. rewrite int64_id by lia.
    destruct (Z.ltb_spec (n - Wav.headerSize s) 0); [reflexivity | lia].
  - intros Hge p. unfold Wav.Seek.
    destruct (Wav.seek_args s offset whence) as [o w]. cbn [fst snd] in Hseek.
    rewrite Hseek. rewrite (int64_id (n - Wav.headerSize s)) by lia.
    destruct (Z.ltb_spec (n - Wav.headerSize s) 0); [lia |].
    rewrite int64_id by lia. subst p.
    destruct (Z.ltb_spec (Wav.dataSize s - (n - Wav.headerSize s)) 0).
    + rewrite Z.min_r by lia. rewrite Z.sub_diag. reflexivity.
    + rewrite Z.min_l by lia. reflexivity.
Qed.

(** The stream limited to its data chunk reports no more bytes than it
    was asked for, when its source does not. *)
Lemma wav_reads_within_slice :
  reads_within_slice (Src := Src) -> reads_within_slice (Src := Wav.stream Src).
Proof.
  intros Hsrc s n. change (rsc_Read s n) with (Wav.Read s n). unfold Wav.Read.
  destruct (Wav.remaining s <=? 0); [cbn; lia |].
  set (m := if Wav.remaining s <? Z.of_nat n then Z.to_nat (Wav.remaining s) else n).
  assert (Hm : (m <= n)%nat).
  { subst m. destruct (Z.ltb_spec (Wav.remaining s) (Z.of_nat n)); lia. }
  pose proof (Hsrc (Wav.src s) m) as Hlen.
  destruct (rsc_Read (Wav.src s) m) as [x [data err]]. cbn [fst snd] in *. lia.
Qed.

End WavFacts.

(** * The further properties on concrete streams *)

(** An endless source of silence: every [Read] fills the slice. *)
Inductive Endless : Type := endless.

#[export] Instance Endless_rsc : ReadSeekCloser Endless :=
  {| rsc_Read := fun s n => (s, (repeat Byte.x00 n, None));
     rsc_Seek := fun s offset _ => (s, (offset, None));
     rsc_Close := fun s => (s, None) |}.

Lemma Endless_progresses : read_progresses (Src := Endless).
Proof.
  intros s n Hn _. cbn. rewrite repeat_length. exact Hn.
Qed.

Lemma mem_reads_within_slice : reads_within_slice (Src := MemSource).
Proof.
  intros s n. change (rsc_Read s n) with (mem_Read s n). unfold mem_Read.
  destruct (mem_fails_at s) as [k |].
  - destruct (k <=? mem_off s)%nat; cbn [fst snd length]; [lia |].
    rewrite length_take. lia.
  - destruct (length (mem_data s) <=? mem_off s)%nat; cbn [fst snd length]; [lia |].
    rewrite length_take. lia.
Qed.

(** An empty source whose failure point is still ahead answers [0, nil]. *)
Lemma mem_stalled (n : nat) :
  rsc_Read (mem_failing [] 8) n = (mem_failing [] 8, ([], None)).
Proof.
  cbn. rewrite take_nil. reflexivity.
Qed.

(** A WAV data chunk of 8 bytes behind a 44-byte header. *)
Definition wav8 : Wav.stream MemSource :=
  {| Wav.src := mem (repeat x10 64); Wav.headerSize := 44; Wav.dataSize := 8;
     Wav.remaining := 8 |}.

Lemma mono16_duplicates_each_sample_witness :
  exists b' : list byte,
    Stereo16.Read (Stereo16.NewStereo16 (mem [x01; x02; x03; x04]) true false)
      (repeat x00 8)
    = (Stereo16.NewStereo16
         {| mem_data := [x01; x02; x03; x04]; mem_off := 4; mem_fails_at := None |}
         true false,
       Some (b', (2 * Z.of_nat (length [x01; x02; x03; x04]), None)))
    /\ frame_is b' 1 x03 x04 x03 x04.
Proof.
  destruct (mono16_duplicates_each_sample
              (Stereo16.NewStereo16 (mem [x01; x02; x03; x04]) true false)
              (repeat x00 8)
              {| mem_data := [x01; x02; x03; x04]; mem_off := 4; mem_fails_at := None |}
              [x01; x02; x03; x04] None)
    as (b' & Hread & _ & Hframes & _).
  - reflexivity.
  - reflexivity.
  - cbn. lia.
  - reflexivity.
  - cbn. lia.
  - discriminate.
  - exists b'. split; [exact Hread |].
    exact (Hframes 1%nat x03 x04 eq_refl eq_refl).
Defined.

Lemma stereo8_expands_each_channel_witness :
  exists b' : list byte,
    Stereo16.Read (Stereo16.NewStereo16 (mem [x80; x07]) false true) (repeat x00 4)
    = (Stereo16.NewStereo16
         {| mem_data := [x80; x07]; mem_off := 2; mem_fails_at := None |} false true,
       Some (b', (2 * Z.of_nat (length [x80; x07]), None)))
    /\ frame_is b' 0 (to_byte (128 * 257 - 32768)) (to_byte (Z.shiftr (128 * 257 - 32768) 8))
                     (to_byte (7 * 257 - 32768)) (to_byte (Z.shiftr (7 * 257 - 32768) 8)).
Proof.
  destruct (stereo8_expands_each_channel
              (Stereo16.NewStereo16 (mem [x80; x07]) false true) (repeat x00 4)
              {| mem_data := [x80; x07]; mem_off := 2; mem_fails_at := None |}
              [x80; x07] None)
    as (b' & Hread & _ & Hframes & _).
  - reflexivity.
  - reflexivity.
  - cbn. lia.
  - reflexivity.
  - cbn. lia.
  - discriminate.
  - exists b'. split; [exact Hread |].
    exact (proj1 (Hframes 0%nat x80 x07 eq_refl eq_refl)).
Defined.

Lemma normaliser_read_error_witness :
  Stereo16.Read (Stereo16.NewStereo16 (mem_failing [x01] 0) true true) (repeat x00 8)
  = (Stereo16.NewStereo16 (mem_failing [x01] 0) true true,
     Some (repeat x00 8, (0, Some (IOError 5)))).
Proof.
  apply (normaliser_read_error
           (Stereo16.NewStereo16 (mem_failing [x01] 0) true true) (repeat x00 8)
           (mem_failing [x01] 0) [] 5%nat).
  reflexivity.
Defined.

Lemma stereo16_read_copies_nothing_witness :
  Stereo16.Read (Stereo16.NewStereo16 (mem [x01; x02; x03; x04]) false false)
    (repeat x00 4)
  = (Stereo16.NewStereo16
       {| mem_data := [x01; x02; x03; x04]; mem_off := 4; mem_fails_at := None |}
       false false,
     Some (repeat x00 4, (4, None))).
Proof.
  apply (stereo16_read_copies_nothing
           (Stereo16.NewStereo16 (mem [x01; x02; x03; x04]) false false)
           (repeat x00 4)
           {| mem_data := [x01; x02; x03; x04]; mem_off := 4; mem_fails_at := None |}
           [x01; x02; x03; x04] None); reflexivity.
Defined.

Lemma src_outside_is_silence_witness :
  Resampling.src 4 16 (Resampling.NewResampling (mem (repeat x10 64)) 64 1 1)
  = (Resampling.NewResampling (mem (repeat x10 64)) 64 1 1, Ok (0%float, 0%float)).
Proof.
  apply src_outside_is_silence. right. vm_compute. discriminate.
Defined.

Lemma src_hit_serves_from_cache_witness :
  exists (l x : float),
    snd (Resampling.src 4 3
           (run cos_poly F64.amd64 4 [OpSrc 0]
              (Resampling.NewResampling (mem (repeat x10 64)) 64 1 1)))
    = Ok (l, x)
    /\ Resampling.decode_block 0 (repeat x10 64) !! 3%nat = Some l.
Proof.
  destruct (src_hit_serves_from_cache 4 3
              (run cos_poly F64.amd64 4 [OpSrc 0]
                 (Resampling.NewResampling (mem (repeat x10 64)) 64 1 1))
              (Resampling.decode_block 0 (repeat x10 64)))
    as (br & l & x & idx & _ & Hl & _ & _ & Hsrc).
  - apply run_cache_ok.
  - vm_compute. split; [discriminate | reflexivity].
  - vm_compute. reflexivity.
  - exists l, x. split; [rewrite Hsrc; reflexivity | exact Hl].
Defined.

Lemma src_miss_loads_and_evicts_witness :
  exists (r' : Resampling.Resampling MemSource) (l x : float),
    Resampling.src 4 3 (Resampling.NewResampling (mem (repeat x10 64)) 64 1 1)
    = (r', Ok (l, x))
    /\ Resampling.lruSrcBlocks r' = [0]
    /\ Resampling.srcBufL r' !! 0 = Some (Resampling.decode_block 0 (repeat x10 64)).
Proof.
  destruct (src_miss_loads_and_evicts 4 3
              (Resampling.NewResampling (mem (repeat x10 64)) 64 1 1)
              (mem (repeat x10 64))
              {| mem_data := repeat x10 64; mem_off := 64; mem_fails_at := None |}
              (repeat x10 64))
    as (r' & l & x & Hsrc & _ & _ & _ & _ & Hlru & HL & _).
  - apply (run_cache_ok cos_poly F64.amd64 4 []).
  - vm_compute. split; [discriminate | reflexivity].
  - reflexivity.
  - reflexivity.
  - reflexivity.
  - exists r', l, x. split; [exact Hsrc |]. split; [exact Hlru | exact HL].
Defined.

Lemma src_never_panics_witness :
  snd (Resampling.src 4 1
         (run cos_poly F64.amd64 4 [OpRead (repeat x00 8); OpSeek 0 SeekStart]
            (Resampling.NewResampling wav8 8 1 1)))
  <> Panic.
Proof.
  apply src_never_panics.
  apply wav_reads_within_slice, mem_reads_within_slice.
Defined.

Lemma load_after_hit_skips_seek_witness :
  exists (r2 : Resampling.Resampling MemSource) (l x : float),
    Resampling.src 4 8192
      (fst (Resampling.src 4 4096
              (run cos_poly F64.amd64 4 [OpSrc 4096; OpSrc 0]
                 (Resampling.NewResampling (mem (repeat x10 8)) 40000 1 1))))
    = (r2, Ok (l, x))
    /\ Resampling.source r2
       = {| mem_data := repeat x10 8; mem_off := 8; mem_fails_at := None |}
    /\ Resampling.srcBufL r2 !! 2 = Some (Resampling.decode_block 0 []).
Proof.
  destruct (load_after_hit_skips_seek 4 4096 8192
              (run cos_poly F64.amd64 4 [OpSrc 4096; OpSrc 0]
                 (Resampling.NewResampling (mem (repeat x10 8)) 40000 1 1))
              (Resampling.decode_block 0 [])
              {| mem_data := repeat x10 8; mem_off := 8; mem_fails_at := None |}
              [])
    as (r2 & l & x & Hsrc & Hsource & HL & _).
  - apply run_cache_ok.
  - vm_compute. split; [discriminate | reflexivity].
  - vm_compute. split; [discriminate | reflexivity].
  - vm_compute. discriminate.
  - reflexivity.
  - vm_compute. reflexivity.
  - vm_compute. reflexivity.
  - vm_compute. reflexivity.
  - exists r2, l, x. split; [exact Hsrc |]. split; [exact Hsource | exact HL].
Defined.

Lemma src_block_read_ends_witness :
  snd (Resampling.src (S Resampling.block_bytes) 0
         (Resampling.NewResampling endless 64 1 1))
  <> Diverge.
Proof.
  apply src_block_read_ends; [exact Endless_progresses | apply Nat.lt_succ_diag_r].
Defined.

Lemma src_spins_on_stalled_source_witness :
  Resampling.src 1000 0 (Resampling.NewResampling (mem_failing [] 8) 64 1 1)
  = (Resampling.set_source (Resampling.NewResampling (mem_failing [] 8) 64 1 1)
       (mem_failing [] 8), Diverge).
Proof.
  apply src_spins_on_stalled_source.
  - vm_compute. split; [discriminate | reflexivity].
  - reflexivity.
  - reflexivity.
  - exact mem_stalled.
Defined.

Lemma Read_count_and_cursor_witness :
  Resampling.pos
    (fst (Resampling.Read cos_poly F64.amd64 4 (repeat x00 8)
            (Resampling.NewResampling (mem (repeat x10 64)) 64 1 1)))
  = 0 + 8.
Proof.
  refine (proj1 (proj2 (proj2
            (Read_count_and_cursor cos_poly F64.amd64 4 (repeat x00 8)
               (fst (snd (Resampling.Read cos_poly F64.amd64 4 (repeat x00 8)
                            (Resampling.NewResampling (mem (repeat x10 64)) 64 1 1))))
               (Resampling.NewResampling (mem (repeat x10 64)) 64 1 1)
               (fst (Resampling.Read cos_poly F64.amd64 4 (repeat x00 8)
                       (Resampling.NewResampling (mem (repeat x10 64)) 64 1 1)))
               8 _ _)))).
  - vm_compute. split; discriminate.
  - vm_compute. reflexivity.
Defined.

Lemma Read_failure_keeps_cursor_witness :
  same_stream
    (Resampling.NewResampling (mem_failing (repeat x10 64) 8) 64 1 1)
    (fst (Resampling.Read cos_poly F64.amd64 4 (repeat x00 8)
            (Resampling.NewResampling (mem_failing (repeat x10 64) 8) 64 1 1))).
Proof.
  apply Read_failure_keeps_cursor.
  intros n. vm_compute. discriminate.
Defined.

Lemma wav_Read_within_remaining_witness :
  let '(s', (data, err)) := Wav.Read wav8 16 in
  Z.of_nat (length data) <= Z.min (Z.of_nat 16) (Wav.remaining wav8)
  /\ Wav.remaining s' = Wav.remaining wav8 - Z.of_nat (length data)
  /\ 0 <= Wav.remaining s'
  /\ Wav.dataSize s' = Wav.dataSize wav8 /\ Wav.headerSize s' = Wav.headerSize wav8
  /\ (Wav.remaining wav8 = 0 -> s' = wav8 /\ data = [] /\ err = Some EOF).
Proof.
  apply (wav_Read_within_remaining wav8 16 mem_reads_within_slice).
  vm_compute. split; [discriminate | reflexivity].
Defined.

Lemma wav_Seek_position_witness :
  Wav.Seek wav8 (-4) SeekEnd
  = (Wav.set_remaining wav8
       {| mem_data := repeat x10 64; mem_off := 48; mem_fails_at := None |} 4,
     (4, None)).
Proof.
  refine (proj2 (proj2
            (wav_Seek_position wav8 (-4) SeekEnd
               {| mem_data := repeat x10 64; mem_off := 48; mem_fails_at := None |}
               48 _ _ _ _)) _).
  - vm_compute. split; [discriminate | reflexivity].
  - vm_compute. split; [discriminate | reflexivity].
  - vm_compute. split; [discriminate | reflexivity].
  - reflexivity.
  - vm_compute. discriminate.
Defined.

(** * The clamps of the interpolator *)

Lemma SFcompare_antisym (x y : spec_float) :
  SFcompare y x = option_map CompOpp (SFcompare x y).
Proof.
  destruct x as [sx | sx | | sx mx ex], y as [sy | sy | | sy my ey]; cbn;
    try reflexivity;
    try (destruct sx; reflexivity); try (destruct sy; reflexivity);
    try (destruct sx, sy; reflexivity).
  destruct sx, sy; cbn; try reflexivity.
  - rewrite (Z.compare_antisym ex ey).
    destruct (ex ?= ey)%Z; cbn; try reflexivity.
    rewrite (Pos.compare_cont_antisym mx my Eq). reflexivity.
  - rewrite (Z.compare_antisym ex ey).
    destruct (ex ?= ey)%Z; cbn; try reflexivity.
    rewrite (Pos.compare_cont_antisym mx my Eq). reflexivity.
Qed.

Lemma not_ltb_leb (x y : float) :
  (x <? y)%float = false -> PrimFloat.is_nan x = false -> PrimFloat.is_nan y = false ->
  (y <=? x)%float = true.
Proof.
  rewrite FloatAxioms.ltb_spec, FloatAxioms.leb_spec. unfold PrimFloat.is_nan. rewrite !FloatAxioms.eqb_spec.
  unfold SFltb, SFleb, SFeqb. rewrite (SFcompare_antisym (Prim2SF x) (Prim2SF y)).
  intros Hlt Hx Hy.
  destruct (Prim2SF x) as [sx | sx | | sx mx ex] eqn:Ex;
    destruct (Prim2SF y) as [sy | sy | | sy my ey] eqn:Ey;
    try discriminate Hx; try discriminate Hy;
    cbn in *;
    repeat match goal with
           | |- context [match ?c with _ => _ end] => destruct c eqn:?; cbn in *
           | H : context [match ?c with _ => _ end] |- _ => destruct c eqn:?; cbn in *
           end;
    try reflexivity; try discriminate.
Qed.

Lemma SFcompare_refl (x : spec_float) :
  x <> S754_nan -> SFcompare x x = Some Eq.
Proof.
  destruct x as [s | s | | s m e]; cbn; intros Hx;
    [reflexivity | destruct s; reflexivity | congruence |].
  destruct s; rewrite Z.compare_refl, Pos.compare_cont_refl; reflexivity.
Qed.

Lemma ltb_not_nan (x y : float) :
  (x <? y)%float = true -> PrimFloat.is_nan x = false /\ PrimFloat.is_nan y = false.
Proof.
  rewrite FloatAxioms.ltb_spec. unfold PrimFloat.is_nan.
  rewrite !FloatAxioms.eqb_spec. unfold SFltb, SFeqb. intros Hlt.
  assert (Hx : Prim2SF x <> S754_nan)
    by (intros E; rewrite E in Hlt; discriminate Hlt).
  assert (Hy : Prim2SF y <> S754_nan)
    by (intros E; rewrite E in Hlt; destruct (Prim2SF x); discriminate Hlt).
  rewrite !SFcompare_refl by assumption. split; reflexivity.
Qed.

Lemma clamp1_range (v : float) :
  PrimFloat.is_nan (Resampling.clamp1 v) = PrimFloat.is_nan v
  /\ (PrimFloat.is_nan v = false ->
      (-1 <=? Resampling.clamp1 v)%float = true
      /\ (Resampling.clamp1 v <=? 1)%float = true).
Proof.
  unfold Resampling.clamp1.
  destruct (v <? -1)%float eqn:Hlo.
  - change (1 <? -1)%float with false. cbv iota.
    apply ltb_not_nan in Hlo as [Hv _]. rewrite Hv.
    split; [reflexivity | intros _; split; reflexivity].
  - cbv zeta. destruct (1 <? v)%float eqn:Hhi.
    + apply ltb_not_nan in Hhi as [_ Hv]. rewrite Hv.
      split; [reflexivity | intros _; split; reflexivity].
    + split; [reflexivity |]. intros Hnan. split.
      * apply not_ltb_leb; [exact Hlo | exact Hnan | reflexivity].
      * apply not_ltb_leb; [exact Hhi | reflexivity | exact Hnan].
Qed.

Section Clamp.

Context {Src : Type} `{ReadSeekCloser Src}.
Variable math_Cos : float -> float.
Variable cvt : Z -> float -> Z.

(** X20.  The samples [at] returns lie in [-1, 1], except that the four
    comparisons of lines 176-187 let a NaN through: each sample is NaN or
    between -1 and 1. *)
Theorem at_output_clamped (fuel : nat) (t : Z) (r r' : Resampling.Resampling Src)
    (lv rv : float) :
  Resampling.at_ math_Cos cvt fuel t r = (r', Ok (lv, rv)) ->
  (PrimFloat.is_nan lv = true \/ ((-1 <=? lv)%float && (lv <=? 1)%float = true))
  /\ (PrimFloat.is_nan rv = true \/ ((-1 <=? rv)%float && (rv <=? 1)%float = true)).
Proof.
  unfold Resampling.at_. intros Hat.
  destruct (Resampling.at_loop _ _ _ _ _ _ _ _ _) as [r1 [[l0 r0] | e | |]];
    try discriminate Hat.
  injection Hat as _ <- <-.
  split.
  - destruct (clamp1_range l0) as [Hn Hr].
    destruct (PrimFloat.is_nan l0) eqn:El; [left; exact Hn | right].
    destruct (Hr eq_refl) as [-> ->]. reflexivity.
  - destruct (clamp1_range r0) as [Hn Hr].
    destruct (PrimFloat.is_nan r0) eqn:El; [left; exact Hn | right].
    destruct (Hr eq_refl) as [-> ->]. reflexivity.
Qed.

End Clamp.

(** The left sample of output frame 1 of a 16-frame stream. *)
Definition frame1_left : float :=
  match snd (Resampling.at_ cos_poly F64.amd64 4 1
               (Resampling.NewResampling (mem (repeat x7f 64)) 64 1 1)) with
  | Ok (l, _) => l
  | _ => 0%float
  end.

Lemma at_output_clamped_witness :
  (-1 <=? frame1_left)%float && (frame1_left <=? 1)%float = true.
Proof.
  destruct (at_output_clamped cos_poly F64.amd64 4 1
              (Resampling.NewResampling (mem (repeat x7f 64)) 64 1 1)
              (fst (Resampling.at_ cos_poly F64.amd64 4 1
                      (Resampling.NewResampling (mem (repeat x7f 64)) 64 1 1)))
              frame1_left
              (match snd (Resampling.at_ cos_poly F64.amd64 4 1
                            (Resampling.NewResampling (mem (repeat x7f 64)) 64 1 1)) with
               | Ok (_, x) => x
               | _ => 0%float
               end))
    as [[Hn | Hb] _].
  - vm_compute. reflexivity.
  - exfalso. revert Hn. vm_compute. discriminate.
  - exact Hb.
Defined.

(** * The helpers of the render shaders (package common)

    [setBufferValue] and [colorToFloat32] of render_shaders.go.  A
    [float32] is its IEEE-754 datum ([spec_float]); Go's [!=] on floats is the
    negation of the IEEE equality [SFeqb], under which a NaN differs from
    itself and the two zeros are equal. *)

Module Shaders.

Definition float32 : Type := spec_float.

Definition neq (a b : float32) : bool := negb (SFeqb a b).

(** [setBufferValue(buffer, index, value, changed)]: the buffer and
    [*changed] after the call; [None] when [buffer[index]] panics. *)
Definition setBufferValue (buffer : list float32) (index : Z) (value : float32)
    (changed : bool) : option (list float32 * bool) :=
  if index <? 0 then None
  else
    match buffer !! Z.to_nat index with
    | None => None
    | Some old =>
        if neq old value then Some (<[Z.to_nat index := value]> buffer, true)
        else Some (buffer, changed)
    end.

Definition uint32 (z : Z) : Z := z mod 2 ^ 32.

(** [colorToFloat32] on the four results of [c.RGBA()], as the bit pattern
    handed to [math.Float32frombits]. *)
Definition colorToFloat32 (colorR colorG colorB colorA : Z) : Z :=
  let colorR := Z.shiftr colorR 8 in
  let colorG := Z.shiftr colorG 8 in
  let colorB := Z.shiftr colorB 8 in
  let colorA := Z.shiftr colorA 8 in
  let red := colorR in
  let green := uint32 (Z.shiftl colorG 8) in
  let blue := uint32 (Z.shiftl colorB 16) in
  let alpha := uint32 (Z.shiftl colorA 24) in
  Z.land (Z.lor (Z.lor (Z.lor alpha blue) green) red) 0xfeffffff.

(** The exponent field of a binary32 bit pattern; 255 marks the NaNs and
    the infinities. *)
Definition exponent_field (bits : Z) : Z := Z.land (Z.shiftr bits 23) 255.

End Shaders.

Lemma SFeqb_refl (x : spec_float) : x <> S754_nan -> SFeqb x x = true.
Proof.
  intros Hx. unfold SFeqb. rewrite SFcompare_refl by exact Hx. reflexivity.
Qed.

(** X21.  [setBufferValue] with an index inside the buffer: the buffer
    keeps its length and every other entry; [*changed] is set when the entry
    differed and is never cleared; afterwards the entry equals [value] in the
    IEEE sense unless [value] is a NaN.  A NaN always counts as a change, also
    over a NaN; a zero written over the zero of the other sign is no change,
    and the old zero stays. *)
Theorem setBufferValue_spec (buffer : list Shaders.float32) (index : Z)
    (value old : Shaders.float32) (changed : bool) :
  0 <= index ->
  buffer !! Z.to_nat index = Some old ->
  exists (buffer' : list Shaders.float32) (changed' : bool) (new : Shaders.float32),
    Shaders.setBufferValue buffer index value changed = Some (buffer', changed')
    /\ length buffer' = length buffer
    /\ (forall j : nat, j <> Z.to_nat index -> buffer' !! j = buffer !! j)
    /\ buffer' !! Z.to_nat index = Some new
    /\ changed' = changed || Shaders.neq old value
    /\ (value <> S754_nan -> SFeqb new value = true)
    /\ (value = S754_nan -> new = S754_nan /\ changed' = true)
    /\ (forall s s' : bool, old = S754_zero s -> value = S754_zero s' ->
        buffer' = buffer /\ changed' = changed).
Proof.
  intros Hidx Hold. unfold Shaders.setBufferValue.
  destruct (Z.ltb_spec index 0); [lia |]. rewrite Hold.
  assert (Hlt : (Z.to_nat index < length buffer)%nat)
    by (apply lookup_lt_is_Some; eauto).
  destruct (Shaders.neq old value) eqn:Hneq.
  - exists (<[Z.to_nat index := value]> buffer), true, value.
    split; [reflexivity |]. split; [apply length_insert |].
    split; [intros j Hj; apply list_lookup_insert_ne; congruence |].
    split; [apply list_lookup_insert_eq; exact Hlt |].
    split; [rewrite orb_true_r; reflexivity |].
    split; [apply SFeqb_refl |].
    split; [intros ->; split; reflexivity |].
    intros s s' -> ->. discriminate Hneq.
  - exists buffer, changed, old.
    split; [reflexivity |]. split; [reflexivity |].
    split; [reflexivity |]. split; [exact Hold |].
    split; [rewrite orb_false_r; reflexivity |].
    unfold Shaders.neq in Hneq. apply negb_false_iff in Hneq.
    split; [intros _; exact Hneq |].
    split; [| intros; split; reflexivity].
    intros ->. unfold SFeqb in Hneq. destruct old; discriminate Hneq.
Qed.

Lemma setBufferValue_spec_witness :
  Shaders.setBufferValue [S754_zero true; S754_nan] 0 (S754_zero false) false
  = Some ([S754_zero true; S754_nan], false)
  /\ Shaders.setBufferValue [S754_zero true; S754_nan] 1 S754_nan false
     = Some ([S754_zero true; S754_nan], true).
Proof.
  split.
  - destruct (setBufferValue_spec [S754_zero true; S754_nan] 0 (S754_zero false)
                (S754_zero true) false)
      as (b' & c' & new & Hset & _ & _ & _ & _ & _ & _ & Hzero);
      [lia | reflexivity |].
    destruct (Hzero true false eq_refl eq_refl) as [-> ->]. exact Hset.
  - reflexivity.
Defined.

Lemma testbit_small (a k n : Z) : 0 <= a < 2 ^ k -> k <= n -> Z.testbit a n = false.
Proof.
  intros Ha Hn. destruct (Z.eq_dec a 0) as [-> | Hne]; [apply Z.bits_0 |].
  apply Z.bits_above_log2; [lia |].
  assert (Z.log2 a < k); [| lia].
  apply Z.log2_lt_pow2; lia.
Qed.

Lemma mask_bits (n : Z) :
  0 <= n -> Z.testbit 0xfeffffff n = (n <? 32) && negb (n =? 24).
Proof.
  intros Hn. destruct (Z.ltb_spec n 32) as [Hlt | Hge].
  - assert (Hall : all_from (fun n => Bool.eqb (Z.testbit 0xfeffffff n)
                                        ((n <? 32) && negb (n =? 24)))
                            0 32 = true) by (vm_compute; reflexivity).
    pose proof (all_from_spec _ _ _ Hall n ltac:(lia)) as Hb. cbv beta in Hb.
    apply Bool.eqb_prop in Hb. rewrite Hb.
    destruct (Z.ltb_spec n 32); [reflexivity | lia].
  - cbn [andb]. apply (testbit_small _ 32); lia.
Qed.

(** X22.  [colorToFloat32] on 16-bit channels: the high byte of red,
    green, blue and alpha lands in bits 0-7, 8-15, 16-23 and 24-31, except
    that bit 24, the lowest alpha bit, is always cleared.  That bit is the
    second bit of the binary32 exponent field, so the field is never 255: the
    float built from the pattern is never a NaN or an infinity. *)
Theorem colorToFloat32_bits (r g b a : Z) :
  0 <= r < 65536 -> 0 <= g < 65536 -> 0 <= b < 65536 -> 0 <= a < 65536 ->
  (forall n : Z, 0 <= n ->
     Z.testbit (Shaders.colorToFloat32 r g b a) n
     = if n <? 8 then Z.testbit r (n + 8)
       else if n <? 16 then Z.testbit g n
       else if n <? 24 then Z.testbit b (n - 8)
       else if n =? 24 then false
       else if n <? 32 then Z.testbit a (n - 16)
       else false)
  /\ Shaders.exponent_field (Shaders.colorToFloat32 r g b a) <> 255.
Proof.
  intros Hr Hg Hb Ha.
  assert (Hbits : forall n : Z, 0 <= n ->
     Z.testbit (Shaders.colorToFloat32 r g b a) n
     = if n <? 8 then Z.testbit r (n + 8)
       else if n <? 16 then Z.testbit g n
       else if n <? 24 then Z.testbit b (n - 8)
       else if n =? 24 then false
       else if n <? 32 then Z.testbit a (n - 16)
       else false).
  { intros n Hn. unfold Shaders.colorToFloat32, Shaders.uint32.
    rewrite Z.land_spec, !Z.lor_spec, mask_bits by exact Hn.
    rewrite !Z.testbit_mod_pow2 by lia.
    rewrite !Z.shiftl_spec by lia. rewrite (Z.shiftr_spec r 8 n) by lia.
    destruct (Z.ltb_spec n 8).
    - rewrite (Z.testbit_neg_r _ (n - 8)), (Z.testbit_neg_r _ (n - 16)),
              (Z.testbit_neg_r _ (n - 24)) by lia.
      destruct (Z.ltb_spec n 32); [| lia].
      destruct (Z.eqb_spec n 24); [lia |].
      cbn [andb orb negb]. rewrite andb_true_r. reflexivity.
    - rewrite (testbit_small r 16 (n + 8)) by lia.
      rewrite (Z.shiftr_spec g 8 (n - 8)) by lia.
      replace (n - 8 + 8) with n by lia.
      destruct (Z.ltb_spec n 16).
      + rewrite (Z.testbit_neg_r _ (n - 16)), (Z.testbit_neg_r _ (n - 24)) by lia.
        destruct (Z.ltb_spec n 32); [| lia].
        destruct (Z.eqb_spec n 24); [lia |].
        cbn [andb orb negb]. rewrite orb_false_r, andb_true_r. reflexivity.
      + rewrite (testbit_small g 16 n) by lia.
        rewrite (Z.shiftr_spec b 8 (n - 16)) by lia.
        replace (n - 16 + 8) with (n - 8) by lia.
        destruct (Z.ltb_spec n 24).
        * rewrite (Z.testbit_neg_r _ (n - 24)) by lia.
          destruct (Z.ltb_spec n 32); [| lia].
          destruct (Z.eqb_spec n 24); [lia |].
          cbn [andb orb negb]. rewrite !orb_false_r, andb_true_r. reflexivity.
        * rewrite (testbit_small b 16 (n - 8)) by lia.
          rewrite (Z.shiftr_spec a 8 (n - 24)) by lia.
          replace (n - 24 + 8) with (n - 16) by lia.
          destruct (Z.eqb_spec n 24);
            [cbn [negb]; rewrite andb_false_r; apply andb_false_r |].
          destruct (Z.ltb_spec n 32); cbn [andb orb negb];
            rewrite ?orb_false_r, ?andb_true_r, ?andb_false_r; reflexivity. }
  split; [exact Hbits |].
  intros Hexp. apply (f_equal (fun z => Z.testbit z 1)) in Hexp.
  unfold Shaders.exponent_field in Hexp.
  rewrite Z.land_spec, Z.shiftr_spec in Hexp by lia.
  rewrite (Hbits (1 + 23)) in Hexp by lia. discriminate Hexp.
Qed.

Lemma colorToFloat32_bits_witness :
  Shaders.exponent_field (Shaders.colorToFloat32 65535 65535 65535 65535) <> 255.
Proof.
  apply (colorToFloat32_bits 65535 65535 65535 65535); lia.
Defined.
